(** * PromptMaster: remote client, adjustment history and connection health

    A shallow embedding of the TypeScript sources

    - [services/gemini.ts]   (class [GeminiService]),
    - [components/ImageEditor.tsx] (history buffer and CSS filter string),
    - [App.tsx]              (connection status and cooldown effect),

    followed by the properties stated for them.

    Conventions of the embedding.
    - A JavaScript string is the list of its UTF-16 code units.
    - A JavaScript number that only ever holds an integer (indices, the
      retry budget, delays, slider values produced by [parseInt]) is a [Z].
      The arithmetic of the filter string goes through the interface
      [JSNumber]; its instance [Double] computes with binary64 numbers.
    - A React state variable is a field of a state record, an event handler
      is a function on that record (one handler runs per render).
    - Promises are run to completion: an asynchronous thunk is a function on
      a world state returning a value or a thrown error. *)

From Stdlib Require Import String Ascii DecimalString.
From Stdlib Require Import ZArith NArith List Bool Lia.
From Stdlib Require Floats QArith Qabs Uint63.
From Equations Require Import Equations.
Import ListNotations.

Local Open Scope Z_scope.

(* ===================================================================== *)
(** * Part I: definitions                                                 *)
(* ===================================================================== *)

(** ** JavaScript strings *)

Module JsString.

Definition codeunit := N.
Definition jsstring := list codeunit.

(** A string literal of the source (the literals used are all ASCII). *)
Definition js (s : string) : jsstring :=
  map N_of_ascii (list_ascii_of_string s).

(** [s.startsWith(p)] *)
Fixpoint startsWith (p s : jsstring) : bool :=
  match p, s with
  | [], _ => true
  | _ :: _, [] => false
  | x :: p', y :: s' => N.eqb x y && startsWith p' s'
  end.

(** [s.includes(p)] *)
Fixpoint includes (s p : jsstring) : bool :=
  startsWith p s ||
  match s with
  | [] => false
  | _ :: s' => includes s' p
  end.

(** [toLowerCase], on the ASCII letters.  No character outside ASCII
    lowercases to a character of the markers searched for below. *)
Definition lowerUnit (c : codeunit) : codeunit :=
  if (N.leb 65 c && N.leb c 90)%bool then (c + 32)%N else c.

Definition toLowerCase (s : jsstring) : jsstring := map lowerUnit s.

(** ECMAScript LineTerminator: LF, CR, LS, PS. *)
Definition isLineTerminator (c : codeunit) : bool :=
  existsb (N.eqb c) [10; 13; 8232; 8233]%N.

(** ECMAScript WhiteSpace: TAB, VT, FF, SP, NBSP, ZWNBSP and the
    category Zs. *)
Definition isWhiteSpace (c : codeunit) : bool :=
  existsb (N.eqb c) [9; 11; 12; 32; 160; 5760; 8239; 8287; 12288; 65279]%N
  || (N.leb 8192 c && N.leb c 8202).

(** The class [\s] of a regular expression, also what [trim] strips. *)
Definition isSpace (c : codeunit) : bool :=
  isWhiteSpace c || isLineTerminator c.

Fixpoint dropWhile (f : codeunit -> bool) (s : jsstring) : jsstring :=
  match s with
  | [] => []
  | c :: s' => if f c then dropWhile f s' else s
  end.

Fixpoint takeWhile (f : codeunit -> bool) (s : jsstring) : jsstring :=
  match s with
  | [] => []
  | c :: s' => if f c then c :: takeWhile f s' else []
  end.

(** [s.trim()] *)
Definition trim (s : jsstring) : jsstring :=
  rev (dropWhile isSpace (rev (dropWhile isSpace s))).

(** [s.split(sep)] for a non-empty separator: the pieces between the
    successive, non-overlapping occurrences of [sep], scanned from the
    left.  [skip] counts the code units of a matched separator still to
    be passed over, [cur] is the current piece, reversed. *)
Fixpoint split_go (sep : jsstring) (skip : nat) (cur s : jsstring)
  : list jsstring :=
  match s with
  | [] => [rev cur]
  | c :: s' =>
      match skip with
      | S k => split_go sep k cur s'
      | O =>
          if startsWith sep s
          then rev cur :: split_go sep (length sep - 1) [] s'
          else split_go sep 0 (c :: cur) s'
      end
  end.

Definition split (sep s : jsstring) : list jsstring :=
  split_go sep 0 [] s.

(** [arr.join(sep)] *)
Fixpoint join (sep : jsstring) (l : list jsstring) : jsstring :=
  match l with
  | [] => []
  | [x] => x
  | x :: l' => x ++ sep ++ join sep l'
  end.

(** Canonicalisation of a code unit under the [i] flag (without [u]):
    the upper-case form, and a character outside ASCII is never mapped
    into ASCII. *)
Definition canonicalize (c : codeunit) : codeunit :=
  if (N.leb 97 c && N.leb c 122)%bool then (c - 32)%N else c.

(** The literal part of a pattern matches at the start of [s],
    ignoring case. *)
Fixpoint matchesHere (p s : jsstring) : bool :=
  match p, s with
  | [], _ => true
  | _ :: _, [] => false
  | x :: p', y :: s' =>
      N.eqb (canonicalize x) (canonicalize y) && matchesHere p' s'
  end.

(** [s.match(re)] for the patterns of the source, which all have the
    shape: a literal [KEY], then [\s] starred, then a capturing group
    holding a starred dot, under the flag [i].  The result is capture
    group 1 of the leftmost match: after [KEY], the longest run of [\s]
    is skipped and the longest run of characters other than line
    terminators is captured.  Both stars may match the empty string, so
    the first, greedy, attempt at a position where [KEY] matches always
    succeeds. *)
Fixpoint matchField (key s : jsstring) : option jsstring :=
  if matchesHere key s
  then Some (takeWhile (fun c => negb (isLineTerminator c))
               (dropWhile isSpace (skipn (length key) s)))
  else match s with
       | [] => None
       | _ :: s' => matchField key s'
       end.

End JsString.

Import JsString.

(** ** components/ImageEditor.tsx *)

Module ImageEditor.

(** [interface ImageAdjustments] of types.ts.  Every value stored in a
    channel is an integer literal or the [parseInt] of a range input. *)
Record ImageAdjustments := {
  brightness : Z;
  contrast : Z;
  saturation : Z;
  exposure : Z;
  hue : Z;
  vibrance : Z;
  sharpness : Z
}.

Definition DEFAULT_ADJUSTMENTS : ImageAdjustments :=
  {| brightness := 100; contrast := 100; saturation := 100;
     exposure := 100; hue := 0; vibrance := 100; sharpness := 0 |}.

(** [JSON.stringify(a) === JSON.stringify(b)]: both objects list the same
    seven keys in the same order, so the two texts agree exactly when the
    seven integers do. *)
Definition sameJSON (a b : ImageAdjustments) : bool :=
  (brightness a =? brightness b) && (contrast a =? contrast b) &&
  (saturation a =? saturation b) && (exposure a =? exposure b) &&
  (hue a =? hue b) && (vibrance a =? vibrance b) &&
  (sharpness a =? sharpness b).

(** The three [useState] cells of the component that the history
    functions read and write. *)
Record EditorState := {
  adjustments : ImageAdjustments;
  history : list ImageAdjustments;
  historyIndex : Z
}.

Definition initialState : EditorState :=
  {| adjustments := DEFAULT_ADJUSTMENTS;
     history := [DEFAULT_ADJUSTMENTS];
     historyIndex := 0 |}.

Definition len {A} (l : list A) : Z := Z.of_nat (length l).

(** [arr.slice(0, e)]: a negative end counts from the end of the array. *)
Definition slice0 {A} (l : list A) (e : Z) : list A :=
  let final := if e <? 0 then Z.max (len l + e) 0 else Z.min e (len l) in
  firstn (Z.to_nat final) l.

(** [arr[i]]; [None] is [undefined]. *)
Definition at_index {A} (l : list A) (i : Z) : option A :=
  if i <? 0 then None else nth_error l (Z.to_nat i).

(** [arr.shift()] as used here: the array without its first element. *)
Definition shift {A} (l : list A) : list A := tl l.

Definition pushToHistory (newAdjustments : ImageAdjustments)
           (s : EditorState) : EditorState :=
  let newHistory := slice0 (history s) (historyIndex s + 1) in
  let newHistory := newHistory ++ [newAdjustments] in
  let newHistory := if len newHistory >? 25 then shift newHistory
                    else newHistory in
  {| adjustments := adjustments s;
     history := newHistory;
     historyIndex := len newHistory - 1 |}.

(** [undo] and [redo] store [history[i]] in the [adjustments] cell.  When
    that is [undefined] the next render throws on [adjustments.brightness]
    and the component is gone: this outcome is [None]. *)
Definition undo (s : EditorState) : option EditorState :=
  if historyIndex s >? 0 then
    let prevIndex := historyIndex s - 1 in
    match at_index (history s) prevIndex with
    | Some a => Some {| adjustments := a;
                        history := history s;
                        historyIndex := prevIndex |}
    | None => None
    end
  else Some s.

Definition redo (s : EditorState) : option EditorState :=
  if historyIndex s <? len (history s) - 1 then
    let nextIndex := historyIndex s + 1 in
    match at_index (history s) nextIndex with
    | Some a => Some {| adjustments := a;
                        history := history s;
                        historyIndex := nextIndex |}
    | None => None
    end
  else Some s.

(** [keyof ImageAdjustments] *)
Inductive Key :=
| Brightness | Contrast | Saturation | Exposure | Hue | Vibrance
| Sharpness.

(** [{ ...a, [key]: value }] *)
Definition update (a : ImageAdjustments) (key : Key) (value : Z)
  : ImageAdjustments :=
  match key with
  | Brightness =>
      {| brightness := value; contrast := contrast a;
         saturation := saturation a; exposure := exposure a;
         hue := hue a; vibrance := vibrance a; sharpness := sharpness a |}
  | Contrast =>
      {| brightness := brightness a; contrast := value;
         saturation := saturation a; exposure := exposure a;
         hue := hue a; vibrance := vibrance a; sharpness := sharpness a |}
  | Saturation =>
      {| brightness := brightness a; contrast := contrast a;
         saturation := value; exposure := exposure a;
         hue := hue a; vibrance := vibrance a; sharpness := sharpness a |}
  | Exposure =>
      {| brightness := brightness a; contrast := contrast a;
         saturation := saturation a; exposure := value;
         hue := hue a; vibrance := vibrance a; sharpness := sharpness a |}
  | Hue =>
      {| brightness := brightness a; contrast := contrast a;
         saturation := saturation a; exposure := exposure a;
         hue := value; vibrance := vibrance a; sharpness := sharpness a |}
  | Vibrance =>
      {| brightness := brightness a; contrast := contrast a;
         saturation := saturation a; exposure := exposure a;
         hue := hue a; vibrance := value; sharpness := sharpness a |}
  | Sharpness =>
      {| brightness := brightness a; contrast := contrast a;
         saturation := saturation a; exposure := exposure a;
         hue := hue a; vibrance := vibrance a; sharpness := value |}
  end.

(** [setAdjustments(a)] *)
Definition setAdjustments (a : ImageAdjustments) (s : EditorState)
  : EditorState :=
  {| adjustments := a; history := history s;
     historyIndex := historyIndex s |}.

Definition handleAdjustmentChange (key : Key) (value : Z)
           (s : EditorState) : EditorState :=
  let next := update (adjustments s) key value in
  setAdjustments next s.

(** [JSON.stringify(undefined)] is [undefined], which differs from every
    string: with no entry at the index the vector is pushed. *)
Definition handleAdjustmentEnd (s : EditorState) : EditorState :=
  match at_index (history s) (historyIndex s) with
  | Some h =>
      if negb (sameJSON (adjustments s) h)
      then pushToHistory (adjustments s) s
      else s
  | None => pushToHistory (adjustments s) s
  end.

Definition handleReset (s : EditorState) : EditorState :=
  pushToHistory DEFAULT_ADJUSTMENTS (setAdjustments DEFAULT_ADJUSTMENTS s).

(** The operations of the engine, as the user interface triggers them:
    slider [onChange], slider [onEnd], and the three buttons. *)
Inductive Op :=
| SetChannel (key : Key) (value : Z)
| Commit
| Undo
| Redo
| Reset.

Definition step (o : Op) (s : EditorState) : option EditorState :=
  match o with
  | SetChannel k v => Some (handleAdjustmentChange k v s)
  | Commit => Some (handleAdjustmentEnd s)
  | Undo => undo s
  | Redo => redo s
  | Reset => Some (handleReset s)
  end.

Fixpoint run (ops : list Op) (s : EditorState) : option EditorState :=
  match ops with
  | [] => Some s
  | o :: ops' =>
      match step o s with
      | Some s' => run ops' s'
      | None => None
      end
  end.

(** *** The CSS filter string *)

(** The arithmetic and the printing of JavaScript numbers, as far as the
    filter string uses them: integers enter through [fromInt], the
    literals [0.2] and [0.05] are constants, and [toStr] is the
    conversion a template literal applies. *)
Class JSNumber (num : Type) := {
  fromInt : Z -> num;
  lit_0_2 : num;
  lit_0_05 : num;
  add : num -> num -> num;
  sub : num -> num -> num;
  mul : num -> num -> num;
  toStr : num -> jsstring
}.

Section Filter.
Context {num : Type} `{JSNumber num}.

Definition brightnessTerm (a : ImageAdjustments) : jsstring :=
  js "brightness(" ++ toStr (fromInt (brightness a)) ++ js "%)".

Definition contrastTerm (a : ImageAdjustments) : jsstring :=
  js "contrast("
     ++ toStr (add (fromInt (contrast a))
                   (mul (fromInt (sharpness a)) lit_0_2))
     ++ js "%)".

Definition saturateTerm (a : ImageAdjustments) : jsstring :=
  js "saturate("
     ++ toStr (add (fromInt (saturation a))
                   (sub (fromInt (vibrance a)) (fromInt 100)))
     ++ js "%)".

Definition opacityTerm (a : ImageAdjustments) : jsstring :=
  js "opacity(" ++ toStr (fromInt (exposure a)) ++ js "%)".

Definition hueRotateTerm (a : ImageAdjustments) : jsstring :=
  js "hue-rotate(" ++ toStr (fromInt (hue a)) ++ js "deg)".

Definition luminanceTerm (a : ImageAdjustments) : jsstring :=
  js "brightness("
     ++ toStr (add (fromInt 100) (mul (fromInt (sharpness a)) lit_0_05))
     ++ js "%)".

(** The array literal of [filterString]. *)
Definition filterTerms (a : ImageAdjustments) : list jsstring :=
  [ brightnessTerm a;
    contrastTerm a;
    saturateTerm a;
    opacityTerm a;
    hueRotateTerm a;
    if sharpness a >? 50 then luminanceTerm a else js "" ].

Definition filterString (a : ImageAdjustments) : jsstring :=
  join (js " ") (filterTerms a).

End Filter.

End ImageEditor.

(** ** services/gemini.ts *)

Module GeminiService.

(** A thrown value, as far as the service and its callers inspect it:
    [err.status] and [err.toString()]. *)
Record JsError := {
  status : option Z;
  toString : jsstring
}.

(** [err.status || 0] *)
Definition statusOr0 (err : JsError) : Z :=
  match status err with
  | Some z => z
  | None => 0
  end.

Definition isRetryable (err : JsError) : bool :=
  let msg := toLowerCase (toString err) in
  includes msg (js "429") || includes msg (js "503") ||
  includes msg (js "quota") || includes msg (js "overloaded").

(** What a run of [callWithRetry] does besides returning: calls of the
    wrapped function, [console.warn], and [setTimeout] waits. *)
Inductive Event :=
| Call
| Warn (status delay : Z)
| Sleep (ms : Z).

Section CallWithRetry.
Context {T W : Type}.

(** [fn: () => Promise<T>]: a call resolves ([inl]) or rejects ([inr])
    and may change the world it runs in. *)
Definition Thunk := W -> (T + JsError) * W.

Definition Outcome : Type := (T + JsError) * W * list Event.

Definition after (pre : list Event) (o : Outcome) : Outcome :=
  let '(r, w, tr) := o in (r, w, pre ++ tr).

Equations? callWithRetry (fn : Thunk) (retries delay : Z) (w : W)
  : Outcome by wf (Z.to_nat retries) lt :=
  callWithRetry fn retries delay w :=
    match fn w with
    | (inl v, w1) => (inl v, w1, [Call])
    | (inr err, w1) =>
        match isRetryable err, Z_gt_dec retries 0 with
        | true, left _ =>
            after [Call; Warn (statusOr0 err) delay; Sleep delay]
                  (callWithRetry fn (retries - 1) (delay * 2) w1)
        | _, _ => (inr err, w1, [Call])
        end
    end.
Proof. lia. Qed.

(** The defaults of the parameters: [retries = 3, delay = 1000].  Every
    call in the class leaves them at these values. *)
Definition callWithRetry_default (fn : Thunk) (w : W) : Outcome :=
  callWithRetry fn 3 1000 w.

(** The waits of a run, in order. *)
Fixpoint sleeps (tr : list Event) : list Z :=
  match tr with
  | [] => []
  | Sleep ms :: tr' => ms :: sleeps tr'
  | _ :: tr' => sleeps tr'
  end.

(** The number of calls of the wrapped function in a run. *)
Fixpoint calls (tr : list Event) : nat :=
  match tr with
  | [] => O
  | Call :: tr' => S (calls tr')
  | _ :: tr' => calls tr'
  end.

End CallWithRetry.

(** The result object of [testKeyAccess]. *)
Record KeyAccess := {
  success : bool;
  message : jsstring;
  isQuota : option bool;
  details : option jsstring
}.

(** [(process.env.API_KEY || "").trim()] *)
Definition getCleanKey (API_KEY : option jsstring) : jsstring :=
  trim (match API_KEY with
        | Some k => k
        | None => js ""
        end).

Definition isEmpty (s : jsstring) : bool :=
  match s with
  | [] => true
  | _ => false
  end.

Section TestKeyAccess.
Context {T W : Type}.

(** [ping] is the one-token [generateContent] request. *)
Definition testKeyAccess (API_KEY : option jsstring) (ping : @Thunk T W)
           (w : W) : KeyAccess * W * list Event :=
  let key := getCleanKey API_KEY in
  if isEmpty key then
    ({| success := false; message := js "API Key Missing.";
        isQuota := None; details := None |}, w, [])
  else
    match callWithRetry_default ping w with
    | (inl _, w', tr) =>
        ({| success := true; message := js "Neural Link Online";
            isQuota := None; details := None |}, w', tr)
    | (inr err, w', tr) =>
        let msg := toLowerCase (toString err) in
        let isQuota := includes msg (js "429")
                       || includes msg (js "quota") in
        ({| success := false;
            message := if isQuota then js "Quota Alert"
                       else js "Neural Static";
            isQuota := Some isQuota;
            details := Some (toString err) |}, w', tr)
    end.
End TestKeyAccess.

(** [interface ImagePrompt] of types.ts. *)
Record ImagePrompt := {
  title : jsstring;
  prompt : jsstring;
  source : jsstring;
  tags : option (list jsstring)
}.

(** The sections kept by [deepScanInternet]. *)
Definition sectionsOf (text : jsstring) : list jsstring :=
  filter (fun s => includes s (js "PROMPT:")) (split (js "---") text).

(** The body of the [forEach]: [prompts.push] when the prompt pattern
    matches. *)
Definition scanSection (prompts : list ImagePrompt) (section : jsstring)
  : list ImagePrompt :=
  let titleMatch := matchField (js "TITLE:") section in
  let promptMatch := matchField (js "PROMPT:") section in
  let tagsMatch := matchField (js "TAGS:") section in
  match promptMatch with
  | Some p =>
      prompts ++
      [ {| title := match titleMatch with
                    | Some t => trim t
                    | None => js "Style Trace"
                    end;
           prompt := trim p;
           tags := Some match tagsMatch with
                        | Some g => map trim (split (js ",") g)
                        | None => [js "Web Source"]
                        end;
           source := js "Global Crawl" |} ]
  | None => prompts
  end.

(** The prompts [deepScanInternet] returns for a response whose
    [response.text] is [text] ([None]: absent, read as the empty
    string). *)
Definition scanPrompts (text : option jsstring) : list ImagePrompt :=
  let text := match text with
              | Some t => t
              | None => js ""
              end in
  fold_left scanSection (sectionsOf text) [].

End GeminiService.

(** ** App.tsx *)

Module App.
Import GeminiService.

Inductive ConnectionStatus :=
| Checking | Online | Offline | Error | Throttled.

Inductive ErrorType := Quota | Hard.

Record ErrorInfo := {
  msg : jsstring;
  info : option jsstring;
  type : option ErrorType
}.

(** The [useState] cells the health logic uses, and whether the interval
    created by the cooldown effect is currently installed. *)
Record AppState := {
  connection : ConnectionStatus;
  cooldown : Z;
  error : option ErrorInfo;
  ticking : bool
}.

Definition initialState : AppState :=
  {| connection := Checking; cooldown := 0; error := None;
     ticking := false |}.

(** [checkHealth], up to its [await]. *)
Definition checkHealth_begin (s : AppState) : AppState :=
  {| connection := Checking; cooldown := cooldown s; error := error s;
     ticking := ticking s |}.

(** [checkHealth], from the result of [testKeyAccess] on. *)
Definition checkHealth_end (res : KeyAccess) (s : AppState) : AppState :=
  if success res then
    {| connection := Online; cooldown := cooldown s; error := None;
       ticking := ticking s |}
  else
    let q := match isQuota res with
             | Some b => b
             | None => false
             end in
    {| connection := if q then Throttled else Error;
       cooldown := cooldown s;
       error := Some {| msg := message res; info := details res;
                        type := Some (if q then Quota else Hard) |};
       ticking := ticking s |}.

(** The [catch] branch of [handleSearch]. *)
Definition handleSearch_catch (err : JsError) (s : AppState) : AppState :=
  let errMsg := toLowerCase (toString err) in
  if includes errMsg (js "429") || includes errMsg (js "quota") then
    {| connection := connection s; cooldown := 30;
       error := Some {| msg := js "Neural Overload";
                        info := Some (js "The API endpoint is heavily throttled. Attempting automatic recovery...");
                        type := Some Quota |};
       ticking := ticking s |}
  else
    {| connection := connection s; cooldown := cooldown s;
       error := Some {| msg := js "Link Interrupted";
                        info := Some (toString err);
                        type := Some Hard |};
       ticking := ticking s |}.

(** The interval callback, [setCooldown(c => c - 1)]; it only runs while
    the interval is installed. *)
Definition tick (s : AppState) : AppState :=
  if ticking s then
    {| connection := connection s; cooldown := cooldown s - 1;
       error := error s; ticking := ticking s |}
  else s.

(** The effect with dependencies [cooldown] and [connection]: the cleanup
    of the previous run removes its interval, then the body runs. *)
Definition cooldownEffect (s : AppState) : AppState :=
  if cooldown s >? 0 then
    {| connection := connection s; cooldown := cooldown s;
       error := error s; ticking := true |}
  else
    match connection s with
    | Throttled =>
        {| connection := Online; cooldown := cooldown s;
           error := error s; ticking := false |}
    | _ =>
        {| connection := connection s; cooldown := cooldown s;
           error := error s; ticking := false |}
    end.

Inductive Event :=
| ProbeStart
| ProbeDone (res : KeyAccess)
| SearchFailed (err : JsError)
| Tick.

Definition handler (e : Event) (s : AppState) : AppState :=
  match e with
  | ProbeStart => checkHealth_begin s
  | ProbeDone res => checkHealth_end res s
  | SearchFailed err => handleSearch_catch err s
  | Tick => tick s
  end.

(** One event: its handler, the render, and the effect. *)
Definition step (e : Event) (s : AppState) : AppState :=
  cooldownEffect (handler e s).

Definition run (es : list Event) (s : AppState) : AppState :=
  fold_left (fun s e => step e s) es s.

End App.

(** ** JavaScript numbers

  The numbers of the program are IEEE 754 binary64 values.  They are
  modelled by the primitive floating-point numbers, whose operations
  round to nearest, ties to even, as JavaScript's do.  [toString] is
  the conversion a template literal applies to a number
  (Number::toString, radix 10): the shortest decimal that reads back as
  the same double, the closest one among the shortest, laid out as an
  integer, a decimal fraction or in exponent form.  It works on the
  exact value [m * 2^e] of the double with integer arithmetic only. *)

Module Double.
Import Stdlib.Floats.PrimFloat Stdlib.Floats.FloatOps.
Import Stdlib.Floats.SpecFloat.
Import ImageEditor.

(** The double nearest to an integer; the integer itself up to 2^53. *)
Definition ofZ (z : Z) : float :=
  SF2Prim (binary_normalize prec emax z 0 false).

(** [s * 10^p] compared with [b * 2^q]. *)
Definition compareDecBin (s p b q : Z) : comparison :=
  Z.compare (s * 10 ^ Z.max p 0 * 2 ^ Z.max (- q) 0)
            (b * 2 ^ Z.max q 0 * 10 ^ Z.max (- p) 0).

(** The reals that round to the double [m * 2^e] lie between the
    midpoints to its two neighbours; the neighbour below a power of two
    is at half the distance.  Both bounds are given as [b * 2^q]. *)
Definition lowerBound (m e : Z) : Z * Z :=
  if (m =? 2 ^ 52) && (e >? -1074) then (4 * m - 1, e - 2)
  else (2 * m - 1, e - 1).

Definition upperBound (m e : Z) : Z * Z := (2 * m + 1, e - 1).

(** The decimal [s * 10^p] reads back as the double [m * 2^e]; a
    midpoint goes to the double with the even significand. *)
Definition roundsTo (s p m e : Z) : bool :=
  let '(bl, ql) := lowerBound m e in
  let '(bu, qu) := upperBound m e in
  match compareDecBin s p bl ql with
  | Lt => false
  | Eq => Z.even m
  | Gt =>
      match compareDecBin s p bu qu with
      | Gt => false
      | Eq => Z.even m
      | Lt => true
      end
  end.

Definition atLeastPow10 (m e n : Z) : bool :=
  match compareDecBin 1 n m e with
  | Gt => false
  | _ => true
  end.

Fixpoint findExponent (fuel : nat) (m e n : Z) : Z :=
  match fuel with
  | O => n
  | S f => if atLeastPow10 m e n then findExponent f m e (n + 1) else n
  end.

(** The [n] with [10^(n-1) <= m * 2^e < 10^n], searched upwards from
    an estimate that lies below it. *)
Definition decimalExponent (m e : Z) : Z :=
  let est := ((Z.log2 m + e) * 30103) / 100000 in
  findExponent 8 m e (est - 2).

(** The [k]-digit decimal [s * 10^(n-k)] that reads back as the double,
    the closer one to it when there are two. *)
Definition candidate (m e n k : Z) : option Z :=
  let p := n - k in
  let num := m * 2 ^ Z.max e 0 * 10 ^ Z.max (- p) 0 in
  let den := 2 ^ Z.max (- e) 0 * 10 ^ Z.max p 0 in
  let lo := num / den in
  let exact := num mod den =? 0 in
  let okLo := roundsTo lo p m e in
  let okHi := negb exact && roundsTo (lo + 1) p m e in
  match okLo, okHi with
  | false, false => None
  | true, false => Some lo
  | false, true => Some (lo + 1)
  | true, true =>
      match compareDecBin (2 * lo + 1) p (2 * m) e with
      | Gt => Some lo
      | Lt => Some (lo + 1)
      | Eq => Some (if Z.even lo then lo else lo + 1)
      end
  end.

(** The digits [s], their number [k] and the exponent [n], with [k] as
    small as possible; seventeen digits always suffice. *)
Fixpoint shortest (fuel : nat) (m e n k : Z) : Z * Z * Z :=
  match fuel with
  | O => (0, k, n)
  | S f =>
      match candidate m e n k with
      | Some s => if s =? 10 ^ k then (1, 1, n + 1) else (s, k, n)
      | None => shortest f m e n (k + 1)
      end
  end.

Definition digits (z : Z) : jsstring :=
  js (NilZero.string_of_uint (N.to_uint (Z.to_N z))).

Definition zeros (n : Z) : jsstring := repeat 48%N (Z.to_nat n).

(** The layout of Number::toString for a positive finite number. *)
Definition finiteToString (m e : Z) : jsstring :=
  let '(s, k, n) := shortest 17 m e (decimalExponent m e) 1 in
  let ds := digits s in
  if (k <=? n) && (n <=? 21) then ds ++ zeros (n - k)
  else if (0 <? n) && (n <=? 21) then
    firstn (Z.to_nat n) ds ++ js "." ++ skipn (Z.to_nat n) ds
  else if (-6 <? n) && (n <=? 0) then js "0." ++ zeros (- n) ++ ds
  else
    let x := n - 1 in
    let sign := if x <? 0 then js "-" else js "+" in
    if k =? 1 then ds ++ js "e" ++ sign ++ digits (Z.abs x)
    else firstn 1 ds ++ js "." ++ skipn 1 ds ++ js "e" ++ sign
         ++ digits (Z.abs x).

Definition specToString (x : spec_float) : jsstring :=
  match x with
  | S754_nan => js "NaN"
  | S754_zero _ => js "0"
  | S754_infinity s => if s then js "-Infinity" else js "Infinity"
  | S754_finite s m e =>
      (if s then js "-" else js "") ++ finiteToString (Zpos m) e
  end.

Definition toString (x : float) : jsstring := specToString (Prim2SF x).

(** The literals [0.2] and [0.05] denote the doubles nearest to them. *)
#[export, warnings="-inexact-float"] Instance doubleNumber : JSNumber float := {|
  fromInt := ofZ;
  lit_0_2 := 0.2%float;
  lit_0_05 := 0.05%float;
  add := PrimFloat.add;
  sub := PrimFloat.sub;
  mul := PrimFloat.mul;
  toStr := toString
|}.

End Double.

(** ** Notions used in the statements about the filter string *)

Module Sliders.
Import Stdlib.Floats.PrimFloat Stdlib.Floats.FloatOps.
Import Stdlib.Floats.SpecFloat.
Import Stdlib.QArith.QArith Stdlib.QArith.Qabs.
Import ImageEditor Double.
Local Open Scope Z_scope.

(** The values the sliders of the editor deliver: [parseInt] of a range
    input with [min="0"], [max] 200, 360 for the hue and 100 for the
    sharpness, and the default step. *)
Definition onSliders (a : ImageAdjustments) : Prop :=
  0 <= brightness a <= 200 /\ 0 <= contrast a <= 200
  /\ 0 <= saturation a <= 200 /\ 0 <= exposure a <= 200
  /\ 0 <= hue a <= 360 /\ 0 <= vibrance a <= 200
  /\ 0 <= sharpness a <= 100.

(** The numbers inside the contrast, saturate and second brightness
    terms: the expressions of the source, over doubles. *)
#[warnings="-inexact-float"] Definition contrastNumber (a : ImageAdjustments) : float :=
  (ofZ (contrast a) + ofZ (sharpness a) * 0.2)%float.

Definition saturateNumber (a : ImageAdjustments) : float :=
  (ofZ (saturation a) + (ofZ (vibrance a) - ofZ 100))%float.

#[warnings="-inexact-float"] Definition luminanceNumber (a : ImageAdjustments) : float :=
  (ofZ 100 + ofZ (sharpness a) * 0.05)%float.

(** An integer in decimal notation, as JavaScript prints it. *)
Definition decimal (z : Z) : jsstring :=
  (if z <? 0 then js "-" else []) ++ digits (Z.abs z).

(** The exact value of a finite double. *)
Definition valueOf (x : float) : option Q :=
  match Prim2SF x with
  | S754_zero _ => Some 0%Q
  | S754_finite s m e =>
      Some (inject_Z (if s then Zneg m else Zpos m) * 2 ^ e)%Q
  | _ => None
  end.

(** The double [x] is finite and within [2^-45] of the rational [q]. *)
Definition close (x : float) (q : Q) : Prop :=
  exists v, valueOf x = Some v /\ (Qabs (v - q) <= 1 # 2 ^ 45)%Q.

Definition closeb (x : float) (q : Q) : bool :=
  match valueOf x with
  | Some v => Qle_bool (Qabs (v - q)) (1 # 2 ^ 45)
  | None => false
  end.

(** The remaining definitions serve the proofs, which evaluate the
    numbers for every value of the sliders.  A small integer as a
    double, through the primitive conversion: *)
Definition small (z : Z) : float :=
  if z <? 0 then (- of_uint63 (Uint63.of_Z (- z)))%float
  else of_uint63 (Uint63.of_Z z).

Definition sameText (a b : jsstring) : bool :=
  if list_eq_dec N.eq_dec a b then true else false.

Definition range (lo : Z) (n : nat) : list Z :=
  map (fun i => lo + Z.of_nat i) (seq 0 n).

(** The three numbers again, as functions of the channels they read. *)
#[warnings="-inexact-float"] Definition contrastOf (c s : Z) : float :=
  (small c + small s * 0.2)%float.

Definition saturateOf (s v : Z) : float :=
  (small s + (small v - small 100))%float.

#[warnings="-inexact-float"] Definition luminanceOf (s : Z) : float :=
  (small 100 + small s * 0.05)%float.

End Sliders.

(** ** Notions used in the statements about the history engine *)

Module History.
Import ImageEditor.

(** The position indexes an entry and the log holds at most 25. *)
Definition valid (s : EditorState) : Prop :=
  len (history s) <= 25 /\
  0 <= historyIndex s <= len (history s) - 1.

(** The working vector is the entry at the current position. *)
Definition settled (s : EditorState) : Prop :=
  at_index (history s) (historyIndex s) = Some (adjustments s).

(** The entries up to and including the current position. *)
Definition upToPosition (s : EditorState) : list ImageAdjustments :=
  firstn (Z.to_nat (historyIndex s) + 1) (history s).

Definition isSetChannel (o : Op) : bool :=
  match o with
  | SetChannel _ _ => true
  | _ => false
  end.

(** No [SetChannel] among the operations. *)
Definition noSetChannel (ops : list Op) : bool :=
  forallb (fun o => negb (isSetChannel o)) ops.

(** The operation, run in state [s], stores the working vector in the log
    or loads it from the log: a commit, a reset, an undo away from
    position 0, a redo away from the last position. *)
Definition settles (o : Op) (s : EditorState) : bool :=
  match o with
  | SetChannel _ _ => false
  | Commit => true
  | Reset => true
  | Undo => historyIndex s >? 0
  | Redo => historyIndex s <? len (history s) - 1
  end.

End History.

(** ** Notions used in the statements about the remote client *)

Module Remote.
Import GeminiService.

(** The markers of a transient failure. *)
Definition transientMarkers : list jsstring :=
  [js "429"; js "503"; js "quota"; js "overloaded"].

(** The lowercased text of the failure contains one of the markers. *)
Definition transient (err : JsError) : Prop :=
  exists m, In m transientMarkers
            /\ includes (toLowerCase (toString err)) m = true.


(** A wrapped operation that rejects with [err] the first [n] times it is
    called and resolves with [v] from then on; the world counts the
    calls. *)
Definition failing {T} (n : nat) (err : JsError) (v : T) : @Thunk T nat :=
  fun k => if (k <? n)%nat then (inr err, S k) else (inl v, S k).

Definition error429 : JsError :=
  {| status := Some 429;
     toString := js "Error: 429 RESOURCE_EXHAUSTED: Quota exceeded" |}.

Definition error400 : JsError :=
  {| status := Some 400; toString := js "Error: 400 Bad Request" |}.

Definition nl : jsstring := [10%N].

(** A response with two sections after the leading delimiter; the second
    has no prompt body. *)
Definition response2 : jsstring :=
  js "---" ++ nl ++
  js "TITLE: Neon City" ++ nl ++
  js "PROMPT: a city at night, rain  " ++ nl ++
  js "TAGS: neon,  city , night" ++ nl ++
  js "---" ++ nl ++
  js "TITLE: Nothing here" ++ nl.




(** The result of a probe whose request keeps failing on quota, and of
    one that fails otherwise. *)
Definition quotaProbe : KeyAccess :=
  fst (fst (testKeyAccess (Some (js "key")) (failing 10 error429 tt)
                          0%nat)).

Definition hardProbe : KeyAccess :=
  fst (fst (testKeyAccess (Some (js "key")) (failing 10 error400 tt)
                          0%nat)).

End Remote.

(** ** services/gemini.ts: the requests *)

Module GeminiRequests.
Import GeminiService.

(** The parts of the SDK's request and response objects that the service
    writes and reads.  A field that may be [undefined] is an [option]. *)
Record InlineData := {
  data : option jsstring;
  mimeType : option jsstring
}.

Record Part := {
  inlineData : option InlineData;
  partText : option jsstring
}.

Record Content := {
  parts : option (list Part)
}.

Record WebRef := {
  webTitle : option jsstring;
  webUri : option jsstring
}.

Record GroundingChunk := {
  web : option WebRef
}.

Record GroundingMetadata := {
  groundingChunks : option (list GroundingChunk)
}.

Record Candidate := {
  content : option Content;
  groundingMetadata : option GroundingMetadata
}.

Record Response := {
  text : option jsstring;
  candidates : option (list Candidate)
}.

(** [contents] of a request: a string, or an object with [parts]. *)
Inductive Contents :=
| ContentsText (t : jsstring)
| ContentsParts (ps : list Part).

Record Request := {
  model : jsstring;
  contents : Contents;
  googleSearch : bool;
  aspectRatio : option jsstring
}.

(** [interface GroundingSource] of types.ts. *)
Record GroundingSource := {
  sourceTitle : jsstring;
  uri : jsstring
}.

Record ScanResult := {
  prompts : list ImagePrompt;
  sources : list GroundingSource
}.

(** [new Error(m)]: no [status], and [toString()] is ["Error: " + m]. *)
Definition newError (m : jsstring) : JsError :=
  {| status := None; toString := js "Error: " ++ m |}.

(** [getClient]: throws when the cleaned key is empty; the client object
    itself carries nothing the embedding needs. *)
Definition getClient (API_KEY : option jsstring) : unit + JsError :=
  let apiKey := getCleanKey API_KEY in
  if isEmpty apiKey then inr (newError (js "API_KEY_NOT_FOUND"))
  else inl tt.

(** [x || d] on a string that may be [undefined]: the empty string is
    falsy too. *)
Definition orElse (x : option jsstring) (d : jsstring) : jsstring :=
  match x with
  | Some (c :: t) => c :: t
  | _ => d
  end.

(** [response.candidates?.[0]] *)
Definition firstCandidate (response : Response) : option Candidate :=
  match candidates response with
  | Some cs => nth_error cs 0
  | None => None
  end.

(** The [forEach] over the grounding chunks of [deepScanInternet]. *)
Definition pushSource (sources : list GroundingSource) (c : GroundingChunk)
  : list GroundingSource :=
  match web c with
  | Some w =>
      sources ++ [ {| sourceTitle := orElse (webTitle w)
                                            (js "External Source");
                      uri := orElse (webUri w) (js "#") |} ]
  | None => sources
  end.

Definition scanSources (response : Response) : list GroundingSource :=
  let metadata := match firstCandidate response with
                  | Some c => groundingMetadata c
                  | None => None
                  end in
  match metadata with
  | Some m =>
      match groundingChunks m with
      | Some chunks => fold_left pushSource chunks []
      | None => []
      end
  | None => []
  end.

Definition quote : jsstring := [34%N].
Definition newline : jsstring := [10%N].

(** The template literal sent by [deepScanInternet]. *)
Definition scanContents (query : jsstring) : jsstring :=
  js "SCAN THE INTERNET for the absolute best AI image prompts for: "
  ++ quote ++ query ++ quote ++ js ". " ++ newline
  ++ js "        Focus on Midjourney v6 and DALL-E 3 styles." ++ newline
  ++ js "        Format your response exactly as follows for 5 prompts:"
  ++ newline
  ++ js "        ---" ++ newline
  ++ js "        TITLE: [Name]" ++ newline
  ++ js "        PROMPT: [Full prompt]" ++ newline
  ++ js "        TAGS: [tag1, tag2]".

Definition scanRequest (query : jsstring) : Request :=
  {| model := js "gemini-3-flash-preview";
     contents := ContentsText (scanContents query);
     googleSearch := true;
     aspectRatio := None |}.

Definition imageRequest (prompt : jsstring) : Request :=
  {| model := js "gemini-2.5-flash-image";
     contents :=
       ContentsParts
         [ {| inlineData := None;
              partText :=
                Some (js "Professional studio photography, high dynamic range: "
                      ++ prompt) |} ];
     googleSearch := false;
     aspectRatio := Some (js "1:1") |}.

(** [base64Image.split(',')[1]] *)
Definition payloadOf (base64Image : jsstring) : option jsstring :=
  nth_error (split (js ",") base64Image) 1.

Definition refineRequest (base64Image instruction : jsstring) : Request :=
  {| model := js "gemini-2.5-flash-image";
     contents :=
       ContentsParts
         [ {| inlineData := Some {| data := payloadOf base64Image;
                                    mimeType := Some (js "image/png") |};
              partText := None |};
           {| inlineData := None;
              partText := Some (js "Refine lighting and details: "
                                ++ instruction) |} ];
     googleSearch := false;
     aspectRatio := None |}.

(** [... ?.content?.parts.find(p => p.inlineData)], and what the two image
    functions do with it. *)
Inductive Found :=
| Inline (d : InlineData)
| NoInline
| PartsMissing.

Fixpoint findInline (ps : list Part) : option InlineData :=
  match ps with
  | [] => None
  | p :: ps' =>
      match inlineData p with
      | Some d => Some d
      | None => findInline ps'
      end
  end.

Definition inlinePart (response : Response) : Found :=
  match firstCandidate response with
  | Some c =>
      match content c with
      | Some ct =>
          match parts ct with
          | Some ps =>
              match findInline ps with
              | Some d => Inline d
              | None => NoInline
              end
          | None => PartsMissing
          end
      | None => NoInline
      end
  | None => NoInline
  end.

(** A value interpolated in a template literal. *)
Definition interpolate (x : option jsstring) : jsstring :=
  match x with
  | Some t => t
  | None => js "undefined"
  end.

Definition dataUrl (d : InlineData) : jsstring :=
  js "data:image/png;base64," ++ interpolate (data d).

Section Requests.
Context {W : Type}.

(** [ai.models.generateContent]: the remote capability. *)
Variable generateContent : Request -> @Thunk Response W.

(** The error thrown by [parts.find] when [parts] is [undefined]; its text
    is the engine's. *)
Variable typeError : JsError.

Variable API_KEY : option jsstring.

(** The function passed to [callWithRetry] by [deepScanInternet]. *)
Definition scanAttempt (query : jsstring) : @Thunk ScanResult W :=
  fun w =>
    match getClient API_KEY with
    | inr err => (inr err, w)
    | inl _ =>
        match generateContent (scanRequest query) w with
        | (inr err, w') => (inr err, w')
        | (inl response, w') =>
            (inl {| prompts := scanPrompts (text response);
                    sources := scanSources response |}, w')
        end
    end.

Definition deepScanInternet (query : jsstring) (w : W)
  : @Outcome ScanResult W :=
  callWithRetry_default (scanAttempt query) w.

(** The end of both image functions: the data URL of the first inline
    part, or the error with message [empty]. *)
Definition imageOf (empty : jsstring) (response : Response)
  : jsstring + JsError :=
  match inlinePart response with
  | Inline d => inl (dataUrl d)
  | NoInline => inr (newError empty)
  | PartsMissing => inr typeError
  end.

Definition imageAttempt (request : Request) (empty : jsstring)
  : @Thunk jsstring W :=
  fun w =>
    match getClient API_KEY with
    | inr err => (inr err, w)
    | inl _ =>
        match generateContent request w with
        | (inr err, w') => (inr err, w')
        | (inl response, w') => (imageOf empty response, w')
        end
    end.

Definition generateStudioImage (prompt : jsstring) (w : W)
  : @Outcome jsstring W :=
  callWithRetry_default
    (imageAttempt (imageRequest prompt)
       (js "Image buffer empty. Safety filters may have engaged.")) w.

Definition refineImage (base64Image instruction : jsstring) (w : W)
  : @Outcome jsstring W :=
  callWithRetry_default
    (imageAttempt (refineRequest base64Image instruction)
       (js "Refinement stream interrupted.")) w.

End Requests.

End GeminiRequests.

(** ** Notions used in the further statements *)

Module Notions.
Import ImageEditor GeminiService App.

(** The waits of [k] retries that start at [delay]: [delay], twice that,
    four times that, and so on. *)
Fixpoint backoff (delay : Z) (k : nat) : list Z :=
  match k with
  | O => []
  | S k' => delay :: backoff (delay * 2) k'
  end.

(** No two neighbouring elements are equal. *)
Fixpoint adjacentDistinct (l : list ImageAdjustments) : Prop :=
  match l with
  | [] => True
  | a :: l' =>
      match l' with
      | [] => True
      | b :: _ => a <> b /\ adjacentDistinct l'
      end
  end.

Definition isReset (o : Op) : bool :=
  match o with
  | Reset => true
  | _ => false
  end.

Definition noReset (ops : list Op) : bool :=
  forallb (fun o => negb (isReset o)) ops.

(** [disabled] of the undo and of the redo button. *)
Definition undoDisabled (s : EditorState) : bool :=
  historyIndex s =? 0.

Definition redoDisabled (s : EditorState) : bool :=
  historyIndex s >=? len (history s) - 1.

(** The first line of [handleSearch]: the submission is dropped. *)
Definition handleSearch_returns (searchQuery : jsstring)
           (isSearching : bool) (s : AppState) : bool :=
  isEmpty (trim searchQuery) || isSearching || (cooldown s >? 0).

(** A string without a code unit satisfying [f]. *)
Definition free (f : codeunit -> bool) (s : jsstring) : Prop :=
  Forall (fun c => f c = false) s.

(** A string that neither starts nor ends with a space. *)
Definition trimmed (s : jsstring) : Prop :=
  match s with
  | [] => True
  | c :: _ => isSpace c = false /\ isSpace (last s c) = false
  end.

Definition isComma (c : codeunit) : bool := N.eqb 44 c.

(** A wrapped operation that always rejects with [err]. *)
Definition rejecting {T} (err : JsError) : @Thunk T nat :=
  fun k => (inr err, S k).

(** A remote capability that always answers [r], counting the requests. *)
Definition answering (r : GeminiRequests.Response)
  : GeminiRequests.Request -> @Thunk GeminiRequests.Response nat :=
  fun _ k => (inl r, S k).


(** Responses for the examples: one without candidates, one with an inline
    image after a text part. *)
Definition emptyResponse : GeminiRequests.Response :=
  {| GeminiRequests.text := None; GeminiRequests.candidates := None |}.

Definition imageData : GeminiRequests.InlineData :=
  {| GeminiRequests.data := Some (js "iVBORw0KGgo=");
     GeminiRequests.mimeType := Some (js "image/png") |}.


(** What holds after every event: the counter is between 0 and 30, the
    interval is installed exactly while the counter is positive, the
    state is throttled only while the counter is positive, and it is never
    offline. *)
Definition steady (s : AppState) : Prop :=
  0 <= cooldown s <= 30
  /\ ticking s = (cooldown s >? 0)
  /\ (connection s = Throttled -> cooldown s > 0)
  /\ connection s <> Offline.



(** The interface can trigger the operation in state [s]: the undo and
    redo buttons only while they are not disabled. *)
Definition enabled (o : Op) (s : EditorState) : bool :=
  match o with
  | Undo => negb (undoDisabled s)
  | Redo => negb (redoDisabled s)
  | _ => true
  end.

(** Every operation of the sequence is triggered while it is enabled. *)
Fixpoint deliverable (ops : list Op) (s : EditorState) : bool :=
  match ops with
  | [] => true
  | o :: ops' =>
      enabled o s &&
      match ImageEditor.step o s with
      | Some s' => deliverable ops' s'
      | None => false
      end
  end.

(** The last operation of the sequence is a [SetChannel]. *)
Definition endsWithSetChannel (ops : list Op) : bool :=
  match rev ops with
  | o :: _ => History.isSetChannel o
  | [] => false
  end.

(** An edit is left uncommitted at the end of the sequence: a [SetChannel]
    has been made and no commit, reset, or undo or redo that moved the
    position has followed it.  [pending] tells whether one is left at the
    start. *)
Fixpoint leftUncommitted (ops : list Op) (s : EditorState)
         (pending : bool) : bool :=
  match ops with
  | [] => pending
  | o :: ops' =>
      match ImageEditor.step o s with
      | Some s' =>
          leftUncommitted ops' s'
            (if History.isSetChannel o then true
             else if History.settles o s then false
             else pending)
      | None => pending
      end
  end.

(** The grounding chunks of a response: those of its first candidate. *)
Definition chunksOf (response : GeminiRequests.Response)
  : list GeminiRequests.GroundingChunk :=
  match GeminiRequests.firstCandidate response with
  | Some c =>
      match GeminiRequests.groundingMetadata c with
      | Some m =>
          match GeminiRequests.groundingChunks m with
          | Some chunks => chunks
          | None => []
          end
      | None => []
      end
  | None => []
  end.

(** The web references of the chunks that carry one, in order. *)
Definition webRefs (chunks : list GeminiRequests.GroundingChunk)
  : list GeminiRequests.WebRef :=
  flat_map (fun c => match GeminiRequests.web c with
                     | Some w => [w]
                     | None => []
                     end) chunks.

(** The source made of a web reference. *)
Definition sourceOf (w : GeminiRequests.WebRef)
  : GeminiRequests.GroundingSource :=
  {| GeminiRequests.sourceTitle :=
       GeminiRequests.orElse (GeminiRequests.webTitle w)
                             (js "External Source");
     GeminiRequests.uri :=
       GeminiRequests.orElse (GeminiRequests.webUri w) (js "#") |}.

(** A response whose only candidate has a content without [parts]. *)
Definition noPartsResponse : GeminiRequests.Response :=
  {| GeminiRequests.text := None;
     GeminiRequests.candidates :=
       Some [ {| GeminiRequests.content :=
                   Some {| GeminiRequests.parts := None |};
                 GeminiRequests.groundingMetadata := None |} ] |}.

(** A response with a text part before the inline image. *)
Definition imageResponse : GeminiRequests.Response :=
  {| GeminiRequests.text := None;
     GeminiRequests.candidates :=
       Some [ {| GeminiRequests.content :=
                   Some {| GeminiRequests.parts :=
                             Some [ {| GeminiRequests.inlineData := None;
                                       GeminiRequests.partText :=
                                         Some (js "Here it is") |};
                                    {| GeminiRequests.inlineData :=
                                         Some imageData;
                                       GeminiRequests.partText := None |} ]
                        |};
                 GeminiRequests.groundingMetadata := None |} ] |}.

(** The TypeError that V8 throws for [parts.find] on [undefined]. *)
Definition findTypeError : JsError :=
  {| status := None;
     toString :=
       js "TypeError: Cannot read properties of undefined (reading 'find')"
  |}.

(** A response with grounding chunks: one without a web reference, one
    with a title only, one with both fields. *)
Definition groundedResponse : GeminiRequests.Response :=
  {| GeminiRequests.text := Some (js "PROMPT: a fox");
     GeminiRequests.candidates :=
       Some [ {| GeminiRequests.content := None;
                 GeminiRequests.groundingMetadata :=
                   Some {| GeminiRequests.groundingChunks :=
                     Some [ {| GeminiRequests.web := None |};
                            {| GeminiRequests.web :=
                                 Some {| GeminiRequests.webTitle :=
                                           Some (js "Fox art");
                                         GeminiRequests.webUri := None |} |};
                            {| GeminiRequests.web :=
                                 Some {| GeminiRequests.webTitle :=
                                           Some (js "");
                                         GeminiRequests.webUri :=
                                           Some (js "https://a.example/x")
                                      |} |} ] |} |} ] |}.

End Notions.

(** ** App.tsx and PromptFinder.tsx: the image in the studio *)

Module Studio.

(** [interface GeneratedImage] of types.ts. *)
Record GeneratedImage := {
  url : jsstring;
  base64 : jsstring;
  prompt : jsstring
}.

(** The cells [activeImage], [isProcessing] and [error] of [App], and the
    [activeImage] that a running [handleAIEdit] holds in its closure: the
    one of the render in which it was started. *)
Record StudioState := {
  activeImage : option GeneratedImage;
  isProcessing : bool;
  captured : option GeneratedImage;
  error : option App.ErrorInfo
}.

Definition initialState : StudioState :=
  {| activeImage := None; isProcessing := false; captured := None;
     error := None |}.

(** The button of a prompt card that opens its generated image:
    [onOpenInStudio({ url: generatedImage, base64: generatedImage,
    prompt: prompt.prompt })], with [setActiveImage] behind it. *)
Definition openInStudio (generatedImage promptText : jsstring)
           (s : StudioState) : StudioState :=
  {| activeImage := Some {| url := generatedImage;
                            base64 := generatedImage;
                            prompt := promptText |};
     isProcessing := isProcessing s;
     captured := captured s;
     error := error s |}.

(** "Back to Prompts": [setActiveImage(null)]. *)
Definition back (s : StudioState) : StudioState :=
  {| activeImage := None; isProcessing := isProcessing s;
     captured := captured s; error := error s |}.

(** The click on the logo: [setActiveImage(null)] and [setError(null)]
    (and the found prompts are cleared). *)
Definition home (s : StudioState) : StudioState :=
  {| activeImage := None; isProcessing := isProcessing s;
     captured := captured s; error := None |}.

(** [handleAIEdit], up to its [await]. *)
Definition handleAIEdit_begin (s : StudioState) : StudioState :=
  match activeImage s with
  | None => s
  | Some img =>
      if isProcessing s then s
      else {| activeImage := activeImage s; isProcessing := true;
              captured := Some img; error := error s |}
  end.

(** [handleAIEdit], from the outcome of [refineImage] on. *)
Definition handleAIEdit_end (r : jsstring + GeminiService.JsError)
           (s : StudioState) : StudioState :=
  match captured s with
  | None => s
  | Some img =>
      match r with
      | inl b =>
          {| activeImage := Some {| url := b; base64 := b;
                                    prompt := prompt img |};
             isProcessing := false; captured := None; error := error s |}
      | inr err =>
          {| activeImage := activeImage s;
             isProcessing := false; captured := None;
             error := Some {| App.msg := js "Refinement Sync Failed";
                              App.info := Some (GeminiService.toString err);
                              App.type := None |} |}
      end
  end.

Inductive Event :=
| OpenInStudio (generatedImage promptText : jsstring)
| Back
| Home
| EditStart
| EditDone (r : jsstring + GeminiService.JsError).

Definition step (e : Event) (s : StudioState) : StudioState :=
  match e with
  | OpenInStudio g p => openInStudio g p s
  | Back => back s
  | Home => home s
  | EditStart => handleAIEdit_begin s
  | EditDone r => handleAIEdit_end r s
  end.

Definition run (es : list Event) (s : StudioState) : StudioState :=
  fold_left (fun s e => step e s) es s.

(** The image is shown ([base64]) as it is downloaded ([url]). *)
Definition coherent (o : option GeneratedImage) : Prop :=
  match o with
  | Some img => url img = base64 img
  | None => True
  end.

End Studio.

(* ===================================================================== *)
(** * Part II: properties                                                 *)
(* ===================================================================== *)

(** ** The history engine *)

Section HistoryFacts.
Import ImageEditor History.

Lemma len_app1 {A} (l : list A) (x : A) : len (l ++ [x]) = len l + 1.
Proof. unfold len. rewrite length_app. cbn [length]. lia. Qed.

Lemma len_shift {A} (l : list A) : 0 < len l -> len (shift l) = len l - 1.
Proof. destruct l; unfold len, shift; cbn [length tl]; lia. Qed.

Lemma sameJSON_eq a b : sameJSON a b = true <-> a = b.
Proof.
  unfold sameJSON. destruct a, b; simpl.
  rewrite !andb_true_iff, !Z.eqb_eq. split.
  - intros [[[[[[-> ->] ->] ->] ->] ->] ->]. reflexivity.
  - intros E. injection E as -> -> -> -> -> -> ->. repeat split.
Qed.

Lemma slice0_firstn {A} (l : list A) (e : Z) :
  0 <= e -> slice0 l e = firstn (Z.to_nat e) l.
Proof.
  intros He. unfold slice0.
  destruct (e <? 0) eqn:E; [apply Z.ltb_lt in E; lia|].
  destruct (Z.le_gt_cases e (len l)) as [L|L].
  - rewrite Z.min_l by lia. reflexivity.
  - rewrite Z.min_r by lia. unfold len in *.
    rewrite Nat2Z.id. rewrite firstn_all.
    symmetry. apply firstn_all2. lia.
Qed.

Lemma slice0_upTo (s : EditorState) :
  0 <= historyIndex s ->
  slice0 (history s) (historyIndex s + 1) = upToPosition s.
Proof.
  intros H. rewrite slice0_firstn by lia. unfold upToPosition.
  f_equal. lia.
Qed.

Lemma len_upTo (s : EditorState) :
  valid s -> len (upToPosition s) = historyIndex s + 1.
Proof.
  intros [_ Hi]. unfold upToPosition, len in *.
  rewrite length_firstn. lia.
Qed.

Lemma at_index_some {A} (l : list A) (i : Z) :
  0 <= i <= len l - 1 -> exists a, at_index l i = Some a.
Proof.
  intros Hi. unfold at_index, len in *.
  destruct (i <? 0) eqn:E; [apply Z.ltb_lt in E; lia|].
  destruct (nth_error l (Z.to_nat i)) eqn:N; [eauto|].
  apply nth_error_None in N. lia.
Qed.

Lemma at_index_last {A} (l : list A) (x : A) :
  at_index (l ++ [x]) (len l) = Some x.
Proof.
  unfold at_index, len.
  destruct (Z.of_nat (length l) <? 0) eqn:E; [apply Z.ltb_lt in E; lia|].
  rewrite Nat2Z.id, nth_error_app2 by lia.
  rewrite Nat.sub_diag. reflexivity.
Qed.

Lemma at_index_shift {A} (l : list A) (i : Z) :
  0 <= i -> at_index (shift l) i = at_index l (i + 1).
Proof.
  intros Hi. unfold at_index, shift.
  destruct (i <? 0) eqn:E; [apply Z.ltb_lt in E; lia|].
  destruct (i + 1 <? 0) eqn:E'; [apply Z.ltb_lt in E'; lia|].
  replace (Z.to_nat (i + 1)) with (S (Z.to_nat i)) by lia.
  destruct l; simpl; [destruct (Z.to_nat i); reflexivity | reflexivity].
Qed.

(** What [pushToHistory] leaves at the position it sets. *)
Lemma pushToHistory_position v s :
  historyIndex (pushToHistory v s) = len (history (pushToHistory v s)) - 1
  /\ at_index (history (pushToHistory v s))
              (historyIndex (pushToHistory v s)) = Some v.
Proof.
  unfold pushToHistory. cbn [history historyIndex].
  set (sl := slice0 (history s) (historyIndex s + 1)).
  split; [reflexivity|].
  destruct (len (sl ++ [v]) >? 25) eqn:E.
  - apply Z.gtb_lt in E. rewrite len_app1 in E.
    rewrite len_shift by (rewrite len_app1; lia).
    rewrite at_index_shift by (rewrite len_app1; lia).
    rewrite len_app1.
    replace (len sl + 1 - 1 - 1 + 1) with (len sl) by lia.
    apply at_index_last.
  - rewrite len_app1. replace (len sl + 1 - 1) with (len sl) by lia.
    apply at_index_last.
Qed.

Lemma pushToHistory_history v s :
  valid s ->
  history (pushToHistory v s) =
    if historyIndex s + 2 >? 25 then shift (upToPosition s ++ [v])
    else upToPosition s ++ [v].
Proof.
  intros V. pose proof (len_upTo s V) as L. destruct V as [_ Hi].
  unfold pushToHistory. cbn [history].
  rewrite slice0_upTo by lia. rewrite len_app1, L.
  replace (historyIndex s + 1 + 1) with (historyIndex s + 2) by lia.
  reflexivity.
Qed.

Lemma pushToHistory_valid v s : valid s -> valid (pushToHistory v s).
Proof.
  intros V. pose proof (len_upTo s V) as L.
  pose proof (pushToHistory_history v s V) as Hh.
  destruct (pushToHistory_position v s) as [Hp _].
  destruct V as [Hl Hi]. unfold valid. rewrite Hp, Hh.
  destruct (historyIndex s + 2 >? 25) eqn:E.
  - apply Z.gtb_lt in E.
    rewrite len_shift by (rewrite len_app1; lia).
    rewrite len_app1. lia.
  - rewrite Z.gtb_ltb in E. apply Z.ltb_ge in E.
    rewrite len_app1. lia.
Qed.

Lemma undo_total s :
  valid s -> exists s', undo s = Some s' /\ valid s'
                        /\ history s' = history s.
Proof.
  intros [Hl Hi]. unfold undo.
  destruct (historyIndex s >? 0) eqn:E.
  - apply Z.gtb_lt in E.
    destruct (at_index_some (history s) (historyIndex s - 1)) as [a Ha];
      [lia|].
    rewrite Ha. eexists. split; [reflexivity|].
    unfold valid; cbn [history historyIndex]. split; [lia | reflexivity].
  - exists s. unfold valid. auto.
Qed.

Lemma redo_total s :
  valid s -> exists s', redo s = Some s' /\ valid s'
                        /\ history s' = history s.
Proof.
  intros [Hl Hi]. unfold redo.
  destruct (historyIndex s <? len (history s) - 1) eqn:E.
  - apply Z.ltb_lt in E.
    destruct (at_index_some (history s) (historyIndex s + 1)) as [a Ha];
      [lia|].
    rewrite Ha. eexists. split; [reflexivity|].
    unfold valid; cbn [history historyIndex]. split; [lia | reflexivity].
  - exists s. unfold valid. auto.
Qed.

Lemma handleAdjustmentEnd_valid s : valid s -> valid (handleAdjustmentEnd s).
Proof.
  intros V. unfold handleAdjustmentEnd.
  destruct (at_index (history s) (historyIndex s)) as [h|];
    [destruct (negb (sameJSON (adjustments s) h))|];
    auto using pushToHistory_valid.
Qed.

Lemma handleReset_valid s : valid s -> valid (handleReset s).
Proof. intros V. unfold handleReset. apply pushToHistory_valid, V. Qed.

Lemma step_valid o s :
  valid s -> exists s', step o s = Some s' /\ valid s'.
Proof.
  intros V. destruct o; simpl.
  - eexists; split; [reflexivity | exact V].
  - eauto using handleAdjustmentEnd_valid.
  - destruct (undo_total s V) as (s' & E & V' & _); eauto.
  - destruct (redo_total s V) as (s' & E & V' & _); eauto.
  - eauto using handleReset_valid.
Qed.

Lemma run_valid ops : forall s,
  valid s -> exists s', run ops s = Some s' /\ valid s'.
Proof.
  induction ops as [|o ops IH]; intros s V; simpl.
  - eauto.
  - destruct (step_valid o s V) as (s1 & E & V1). rewrite E. auto.
Qed.

Lemma initialState_valid : valid initialState.
Proof. unfold valid, initialState, len; simpl. lia. Qed.

Lemma run_app ops1 : forall ops2 s,
  run (ops1 ++ ops2) s =
    match run ops1 s with
    | Some s1 => run ops2 s1
    | None => None
    end.
Proof.
  induction ops1 as [|o ops1 IH]; intros ops2 s; simpl; [reflexivity|].
  destruct (step o s); [apply IH | reflexivity].
Qed.

End HistoryFacts.

Section HistoryClaims.
Import ImageEditor History.

Lemma upTo_full s :
  valid s -> historyIndex s = len (history s) - 1 ->
  upToPosition s = history s.
Proof.
  intros [_ Hi] E. unfold upToPosition, len in *.
  apply firstn_all2. lia.
Qed.

(** C2: from the initial state, every sequence of operations of the
    engine (commits, with the channel edits, undos, redos and resets
    between them) runs to a state whose log has at most 25 entries and
    whose position indexes an entry; and when appending to the entries up
    to the position gives more than 25, [pushToHistory] drops the first
    entry and puts the position on the last one, which is the appended
    vector. *)
Theorem history_bounded_position_valid :
  (forall ops : list Op,
      exists s, run ops initialState = Some s
                /\ len (history s) <= 25
                /\ 0 <= historyIndex s <= len (history s) - 1)
  /\
  (forall (s : EditorState) (v : ImageAdjustments),
      valid s ->
      len (upToPosition s ++ [v]) > 25 ->
      let s' := pushToHistory v s in
      history s' = shift (upToPosition s ++ [v])
      /\ history s' = tl (history s) ++ [v]
      /\ len (history s') = 25
      /\ historyIndex s' = len (history s') - 1
      /\ at_index (history s') (historyIndex s') = Some v).
Proof.
  split.
  - intros ops.
    destruct (run_valid ops initialState initialState_valid)
      as (s & E & Hl & Hi).
    exists s. auto.
  - intros s v V G. cbv zeta.
    pose proof (len_upTo s V) as L. rewrite len_app1, L in G.
    pose proof (pushToHistory_history v s V) as Hh.
    destruct (pushToHistory_position v s) as [Hp Hv].
    assert (E : (historyIndex s + 2 >? 25) = true) by (apply Z.gtb_lt; lia).
    rewrite E in Hh.
    assert (F : upToPosition s = history s)
      by (apply upTo_full; [exact V | destruct V; lia]).
    repeat split; try assumption.
    + rewrite Hh, F. unfold shift. destruct V as [_ Hi].
      destruct (history s); [unfold len in Hi; simpl in Hi; lia|].
      reflexivity.
    + destruct V as [Hl Hi].
      rewrite Hh, len_shift by (rewrite len_app1; lia).
      rewrite len_app1. lia.
Qed.

Lemma history_bounded_position_valid_witness :
  let s := {| adjustments := DEFAULT_ADJUSTMENTS;
              history := repeat DEFAULT_ADJUSTMENTS 25;
              historyIndex := 24 |} in
  let v := update DEFAULT_ADJUSTMENTS Hue 90 in
  history (pushToHistory v s) = repeat DEFAULT_ADJUSTMENTS 24 ++ [v]
  /\ historyIndex (pushToHistory v s) = 24.
Proof.
  cbv zeta.
  pose (s := {| adjustments := DEFAULT_ADJUSTMENTS;
                history := repeat DEFAULT_ADJUSTMENTS 25;
                historyIndex := 24 |}).
  pose (v := update DEFAULT_ADJUSTMENTS Hue 90).
  assert (V : valid s) by (unfold valid; vm_compute; split; [|split]; discriminate).
  assert (G : len (upToPosition s ++ [v]) > 25) by reflexivity.
  destruct (proj2 history_bounded_position_valid s v V G)
    as (_ & H1 & _ & H2 & _).
  split; [exact H1 | exact H2].
Defined.

(** C3: a commit of a working vector that differs from the entry at the
    position keeps the entries up to the position, appends the working
    vector (dropping the first entry when that makes 26) and puts the
    position on the new last entry.  For the log [A;B;C] at position 2:
    undo gives position 1 with working vector B, and committing a vector D
    other than B then gives the log [A;B;D] at position 2, where any
    number of redos changes nothing. *)
Theorem commit_discards_redo_branch :
  (forall (s : EditorState) (h : ImageAdjustments),
      valid s ->
      at_index (history s) (historyIndex s) = Some h ->
      adjustments s <> h ->
      let s' := handleAdjustmentEnd s in
      history s' =
        (if historyIndex s + 2 >? 25
         then shift (upToPosition s ++ [adjustments s])
         else upToPosition s ++ [adjustments s])
      /\ historyIndex s' = len (history s') - 1
      /\ at_index (history s') (historyIndex s') = Some (adjustments s)
      /\ adjustments s' = adjustments s)
  /\
  (forall A B C D : ImageAdjustments,
      D <> B ->
      let s0 := {| adjustments := C; history := [A; B; C];
                   historyIndex := 2 |} in
      exists s1,
        undo s0 = Some s1 /\ historyIndex s1 = 1 /\ adjustments s1 = B
        /\ history s1 = [A; B; C]
        /\ let s2 := handleAdjustmentEnd (setAdjustments D s1) in
           history s2 = [A; B; D] /\ historyIndex s2 = 2
           /\ adjustments s2 = D
           /\ forall n, run (repeat Redo n) s2 = Some s2).
Proof.
  split.
  - intros s h V Hh Hne. cbv zeta.
    assert (E : handleAdjustmentEnd s = pushToHistory (adjustments s) s).
    { unfold handleAdjustmentEnd. rewrite Hh.
      destruct (sameJSON (adjustments s) h) eqn:J; [|reflexivity].
      apply sameJSON_eq in J. contradiction. }
    rewrite E.
    destruct (pushToHistory_position (adjustments s) s) as [Hp Hv].
    repeat split; try assumption.
    apply pushToHistory_history, V.
  - intros A B C D Hne. cbv zeta.
    exists {| adjustments := B; history := [A; B; C]; historyIndex := 1 |}.
    assert (E : handleAdjustmentEnd
                  (setAdjustments D {| adjustments := B;
                                       history := [A; B; C];
                                       historyIndex := 1 |})
                = {| adjustments := D; history := [A; B; D];
                     historyIndex := 2 |}).
    { unfold handleAdjustmentEnd, setAdjustments.
      cbn [history historyIndex adjustments].
      change (at_index [A; B; C] 1) with (Some B).
      destruct (sameJSON D B) eqn:J;
        [apply sameJSON_eq in J; contradiction |].
      cbn [adjustments]. rewrite J. reflexivity. }
    rewrite E. cbn [history historyIndex adjustments].
    split; [reflexivity|]. split; [reflexivity|]. split; [reflexivity|].
    split; [reflexivity|]. split; [reflexivity|]. split; [reflexivity|].
    split; [reflexivity|].
    intros n. induction n as [|n IH]; [reflexivity|].
    cbn [repeat run]. change (step Redo _) with
      (Some {| adjustments := D; history := [A; B; D];
               historyIndex := 2 |}).
    exact IH.
Qed.

Lemma commit_discards_redo_branch_witness :
  let A := DEFAULT_ADJUSTMENTS in
  let B := update A Hue 10 in
  let C := update B Hue 20 in
  let D := update B Contrast 120 in
  handleAdjustmentEnd
    (setAdjustments D {| adjustments := B; history := [A; B; C];
                         historyIndex := 1 |})
  = {| adjustments := D; history := [A; B; D]; historyIndex := 2 |}.
Proof.
  cbv zeta.
  pose (A := DEFAULT_ADJUSTMENTS). pose (B := update A Hue 10).
  pose (C := update B Hue 20). pose (D := update B Contrast 120).
  assert (Hne : D <> B) by discriminate.
  destruct (proj2 commit_discards_redo_branch A B C D Hne)
    as (s1 & U & _ & _ & _ & H1 & H2 & H3 & _).
  injection U as <-.
  destruct (handleAdjustmentEnd _) as [a h i] eqn:E in H1, H2, H3 |- *.
  cbn [adjustments history historyIndex] in H1, H2, H3.
  rewrite H1, H2, H3. reflexivity.
Defined.

(** The claim C4 as first stated fails at position 0: after one committed
    edit and an undo the log has two entries and the position is 0; there
    undo does nothing and redo loads the second entry, which is not the
    working vector held before the undo. *)
Lemma undo_redo_at_position_zero :
  run [SetChannel Hue 10; Commit; Undo] initialState
  = Some {| adjustments := DEFAULT_ADJUSTMENTS;
            history := [DEFAULT_ADJUSTMENTS;
                        update DEFAULT_ADJUSTMENTS Hue 10];
            historyIndex := 0 |}
  /\ 2 <= len [DEFAULT_ADJUSTMENTS; update DEFAULT_ADJUSTMENTS Hue 10]
  /\ undo {| adjustments := DEFAULT_ADJUSTMENTS;
             history := [DEFAULT_ADJUSTMENTS;
                         update DEFAULT_ADJUSTMENTS Hue 10];
             historyIndex := 0 |}
     = Some {| adjustments := DEFAULT_ADJUSTMENTS;
               history := [DEFAULT_ADJUSTMENTS;
                           update DEFAULT_ADJUSTMENTS Hue 10];
               historyIndex := 0 |}
  /\ redo {| adjustments := DEFAULT_ADJUSTMENTS;
             history := [DEFAULT_ADJUSTMENTS;
                         update DEFAULT_ADJUSTMENTS Hue 10];
             historyIndex := 0 |}
     = Some {| adjustments := update DEFAULT_ADJUSTMENTS Hue 10;
               history := [DEFAULT_ADJUSTMENTS;
                           update DEFAULT_ADJUSTMENTS Hue 10];
               historyIndex := 1 |}
  /\ update DEFAULT_ADJUSTMENTS Hue 10 <> DEFAULT_ADJUSTMENTS.
Proof.
  split; [reflexivity|]. split; [vm_compute; discriminate|].
  split; [reflexivity|]. split; [reflexivity|]. discriminate.
Qed.

(** It also fails, at any position, while an edit is uncommitted: undo
    and redo load entries of the log, and the edited vector is not in
    it. *)
Lemma undo_redo_uncommitted_edit :
  run [SetChannel Hue 10; Commit; SetChannel Hue 20; Undo; Redo]
      initialState
  = Some {| adjustments := update DEFAULT_ADJUSTMENTS Hue 10;
            history := [DEFAULT_ADJUSTMENTS;
                        update DEFAULT_ADJUSTMENTS Hue 10];
            historyIndex := 1 |}
  /\ run [SetChannel Hue 10; Commit; SetChannel Hue 20] initialState
     = Some {| adjustments := update DEFAULT_ADJUSTMENTS Hue 20;
               history := [DEFAULT_ADJUSTMENTS;
                           update DEFAULT_ADJUSTMENTS Hue 10];
               historyIndex := 1 |}.
Proof. split; reflexivity. Qed.

(** C4, amended: from a state whose position is at least 1, undo and then
    redo both succeed, leave the log and the position as they were and
    leave as working vector the entry at that position; so the working
    vector is the one held before the undo whenever that one had been
    committed. *)
Theorem undo_then_redo_restores (s : EditorState) :
  valid s ->
  historyIndex s > 0 ->
  exists s1 s2,
    undo s = Some s1 /\ redo s1 = Some s2
    /\ history s2 = history s
    /\ historyIndex s2 = historyIndex s
    /\ at_index (history s) (historyIndex s) = Some (adjustments s2)
    /\ (settled s -> adjustments s2 = adjustments s).
Proof.
  intros [Hl Hi] Hpos. unfold undo, redo.
  assert (E : (historyIndex s >? 0) = true) by (apply Z.gtb_lt; lia).
  rewrite E.
  destruct (at_index_some (history s) (historyIndex s - 1)) as [a Ha];
    [lia|].
  destruct (at_index_some (history s) (historyIndex s)) as [b Hb];
    [lia|].
  rewrite Ha. eexists. eexists. split; [reflexivity|].
  cbn [history historyIndex].
  assert (F : (historyIndex s - 1 <? len (history s) - 1) = true)
    by (apply Z.ltb_lt; lia).
  rewrite F. replace (historyIndex s - 1 + 1) with (historyIndex s) by lia.
  rewrite Hb. split; [reflexivity|]. cbn [history historyIndex adjustments].
  repeat split.
  unfold settled. rewrite Hb. intros S. injection S as ->. reflexivity.
Qed.

Lemma undo_then_redo_restores_witness :
  exists s1 s2,
    undo {| adjustments := update DEFAULT_ADJUSTMENTS Hue 10;
            history := [DEFAULT_ADJUSTMENTS;
                        update DEFAULT_ADJUSTMENTS Hue 10];
            historyIndex := 1 |} = Some s1
    /\ redo s1 = Some s2
    /\ adjustments s2 = update DEFAULT_ADJUSTMENTS Hue 10.
Proof.
  pose (s := {| adjustments := update DEFAULT_ADJUSTMENTS Hue 10;
                history := [DEFAULT_ADJUSTMENTS;
                            update DEFAULT_ADJUSTMENTS Hue 10];
                historyIndex := 1 |}).
  assert (V : valid s)
    by (unfold valid; vm_compute; split; [|split]; discriminate).
  assert (P : historyIndex s > 0) by reflexivity.
  destruct (undo_then_redo_restores s V P)
    as (s1 & s2 & U & R & _ & _ & _ & S).
  exists s1, s2. split; [exact U|]. split; [exact R|].
  apply S. reflexivity.
Defined.

(** *** Undo and redo leave the log alone *)

(** C10: whatever the state, a state that undo or redo produces has the
    log of the state it started from, entry by entry; and from a state
    whose position indexes an entry both do produce a state. *)
Theorem undo_redo_keep_history :
  (forall s s', undo s = Some s' ->
                history s' = history s
                /\ len (history s') = len (history s)
                /\ forall i, at_index (history s') i
                             = at_index (history s) i)
  /\
  (forall s s', redo s = Some s' ->
                history s' = history s
                /\ len (history s') = len (history s)
                /\ forall i, at_index (history s') i
                             = at_index (history s) i)
  /\
  (forall s, valid s -> exists u r, undo s = Some u /\ redo s = Some r).
Proof.
  assert (K : forall s s' : EditorState,
             history s' = history s ->
             history s' = history s
             /\ len (history s') = len (history s)
             /\ forall i, at_index (history s') i = at_index (history s) i).
  { intros s s' E. rewrite E. auto. }
  split; [|split].
  - intros s s' U. apply K. unfold undo in U.
    destruct (historyIndex s >? 0).
    + destruct (at_index _ _); [|discriminate].
      injection U as <-. reflexivity.
    + injection U as <-. reflexivity.
  - intros s s' R. apply K. unfold redo in R.
    destruct (historyIndex s <? len (history s) - 1).
    + destruct (at_index _ _); [|discriminate].
      injection R as <-. reflexivity.
    + injection R as <-. reflexivity.
  - intros s V.
    destruct (undo_total s V) as (u & U & _).
    destruct (redo_total s V) as (r & R & _).
    eauto.
Qed.

Lemma undo_redo_keep_history_witness :
  history {| adjustments := DEFAULT_ADJUSTMENTS;
             history := [DEFAULT_ADJUSTMENTS;
                         update DEFAULT_ADJUSTMENTS Hue 10];
             historyIndex := 0 |}
  = [DEFAULT_ADJUSTMENTS; update DEFAULT_ADJUSTMENTS Hue 10].
Proof.
  refine (proj1 (proj1 undo_redo_keep_history
                   {| adjustments := update DEFAULT_ADJUSTMENTS Hue 10;
                      history := [DEFAULT_ADJUSTMENTS;
                                  update DEFAULT_ADJUSTMENTS Hue 10];
                      historyIndex := 1 |} _ _)).
  reflexivity.
Defined.

(** *** The working vector and the entry at the position *)

Lemma pushToHistory_settled v s :
  adjustments s = v -> settled (pushToHistory v s).
Proof.
  intros <-. unfold settled.
  destruct (pushToHistory_position (adjustments s) s) as [_ Hv].
  exact Hv.
Qed.

Lemma handleAdjustmentEnd_settled s : settled (handleAdjustmentEnd s).
Proof.
  unfold handleAdjustmentEnd.
  destruct (at_index (history s) (historyIndex s)) as [h|] eqn:Hh.
  - destruct (sameJSON (adjustments s) h) eqn:J; cbn [negb].
    + apply sameJSON_eq in J. unfold settled. congruence.
    + apply pushToHistory_settled. reflexivity.
  - apply pushToHistory_settled. reflexivity.
Qed.

Lemma handleReset_settled s : settled (handleReset s).
Proof. unfold handleReset. apply pushToHistory_settled. reflexivity. Qed.

Lemma undo_settled s s' :
  undo s = Some s' ->
  (historyIndex s >? 0) = true \/ settled s -> settled s'.
Proof.
  unfold undo. intros U H.
  destruct (historyIndex s >? 0).
  - destruct (at_index (history s) (historyIndex s - 1)) eqn:Ha;
      [|discriminate].
    injection U as <-. exact Ha.
  - injection U as <-. destruct H; [discriminate | assumption].
Qed.

Lemma redo_settled s s' :
  redo s = Some s' ->
  (historyIndex s <? len (history s) - 1) = true \/ settled s ->
  settled s'.
Proof.
  unfold redo. intros R H.
  destruct (historyIndex s <? len (history s) - 1).
  - destruct (at_index (history s) (historyIndex s + 1)) eqn:Ha;
      [|discriminate].
    injection R as <-. exact Ha.
  - injection R as <-. destruct H; [discriminate | assumption].
Qed.

Lemma step_settled o s s' :
  step o s = Some s' ->
  settles o s = true \/ (isSetChannel o = false /\ settled s) ->
  settled s'.
Proof.
  destruct o; cbn [step settles isSetChannel]; intros E H.
  - destruct H as [H|[H _]]; discriminate.
  - injection E as <-. apply handleAdjustmentEnd_settled.
  - apply (undo_settled s s' E). tauto.
  - apply (redo_settled s s' E). tauto.
  - injection E as <-. apply handleReset_settled.
Qed.

Lemma run_settled ops : forall s s',
  noSetChannel ops = true -> settled s -> run ops s = Some s' ->
  settled s'.
Proof.
  induction ops as [|o ops IH]; intros s s' N S R.
  - injection R as <-. exact S.
  - cbn [noSetChannel forallb] in N. apply andb_true_iff in N.
    destruct N as [No N]. apply negb_true_iff in No.
    cbn [run] in R. destruct (step o s) as [s1|] eqn:E; [|discriminate].
    apply (IH s1 s' N); [|exact R].
    apply (step_settled o s s1 E). auto.
Qed.

End HistoryClaims.

Section SettledClaim.
Import ImageEditor History Notions.

Lemma deliverable_last ops : forall s o s1,
  deliverable (ops ++ [o]) s = true -> run ops s = Some s1 ->
  enabled o s1 = true.
Proof.
  induction ops as [|x ops IH]; intros s o s1; cbn [app deliverable run].
  - intros D E. injection E as <-.
    apply andb_true_iff in D. apply D.
  - intros D E. apply andb_true_iff in D. destruct D as [_ D].
    destruct (step x s) as [s2|]; [|discriminate].
    apply (IH s2 o s1 D E).
Qed.

Lemma endsWithSetChannel_last ops o :
  endsWithSetChannel (ops ++ [o]) = isSetChannel o.
Proof. unfold endsWithSetChannel. rewrite rev_app_distr. reflexivity. Qed.

Lemma enabled_settles o s :
  valid s -> isSetChannel o = false -> enabled o s = true ->
  settles o s = true.
Proof.
  intros [_ Hi] N E. destruct o; cbn in *; try discriminate; try reflexivity.
  - unfold undoDisabled in E. apply negb_true_iff, Z.eqb_neq in E.
    apply Z.gtb_lt. lia.
  - unfold redoDisabled in E. apply negb_true_iff in E.
    rewrite Z.geb_leb in E. apply Z.leb_gt in E.
    apply Z.ltb_lt. lia.
Qed.

Lemma run_leftUncommitted ops : forall s s' pending,
  (pending = false -> settled s) ->
  run ops s = Some s' ->
  leftUncommitted ops s pending = false ->
  settled s'.
Proof.
  induction ops as [|o ops IH]; intros s s' pending P;
    cbn [run leftUncommitted].
  - intros E L. injection E as <-. auto.
  - destruct (step o s) as [s1|] eqn:E1; [|discriminate].
    apply IH. intros F.
    apply (step_settled o s s1 E1).
    destruct (isSetChannel o); [discriminate|].
    destruct (settles o s); [left; reflexivity|].
    right. auto.
Qed.

(** C6: from the initial state, the working vector is, channel by
    channel, the entry at the position after every sequence of operations
    that the interface can deliver (undo and redo only while their buttons
    are enabled) and that does not end with a [SetChannel]; and so it is
    after every sequence of operations whatever that leaves no edit
    uncommitted (no [SetChannel] without a later commit, reset, or undo or
    redo that moved the position). *)
Theorem working_vector_settled :
  (forall ops,
      deliverable ops initialState = true ->
      endsWithSetChannel ops = false ->
      exists s, run ops initialState = Some s /\ settled s
                /\ at_index (history s) (historyIndex s)
                   = Some (adjustments s))
  /\
  (forall ops,
      leftUncommitted ops initialState false = false ->
      exists s, run ops initialState = Some s /\ settled s).
Proof.
  split.
  - intros ops D N.
    destruct (run_valid ops initialState initialState_valid)
      as (s & R & _).
    exists s. split; [exact R|].
    assert (St : settled s); [|split; exact St].
    revert s D N R. induction ops as [|o ops' _] using rev_ind;
      intros s D N R.
    + injection R as <-. reflexivity.
    + rewrite endsWithSetChannel_last in N.
      rewrite run_app in R.
      destruct (run_valid ops' initialState initialState_valid)
        as (s1 & R1 & V1).
      rewrite R1 in R. cbn [run] in R.
      destruct (step o s1) as [s2|] eqn:E; [|discriminate].
      injection R as <-.
      apply (step_settled o s1 s2 E). left.
      apply enabled_settles; [exact V1 | exact N |].
      apply (deliverable_last ops' initialState o s1 D R1).
  - intros ops L.
    destruct (run_valid ops initialState initialState_valid)
      as (s & R & _).
    exists s. split; [exact R|].
    apply (run_leftUncommitted ops initialState s false);
      [reflexivity | exact R | exact L].
Qed.

Lemma working_vector_settled_witness :
  exists s,
    run [SetChannel Hue 10; Commit; SetChannel Hue 20; Undo; Redo]
        initialState = Some s
    /\ settled s
    /\ at_index (history s) (historyIndex s) = Some (adjustments s).
Proof.
  exact (proj1 working_vector_settled
           [SetChannel Hue 10; Commit; SetChannel Hue 20; Undo; Redo]
           eq_refl eq_refl).
Defined.

(** An edit that is never committed stays pending when the only
    operation after it is an undo at position 0, which the disabled
    button does not deliver: the sequence is neither deliverable nor free
    of an uncommitted edit. *)
Example pending_edit_at_position_zero :
  deliverable [SetChannel Hue 10; Undo] initialState = false
  /\ leftUncommitted [SetChannel Hue 10; Undo] initialState false = true.
Proof. split; reflexivity. Qed.

End SettledClaim.

(** ** The filter string *)

Section FilterClaims.
Import ImageEditor.
Context {num : Type} `{JSNumber num}.

Lemma js_cons (c : ascii) (s : string) :
  js (String c s) = N_of_ascii c :: js s.
Proof. reflexivity. Qed.

Lemma last_snoc2 (l : jsstring) (x y d : codeunit) :
  last (l ++ [x; y]) d = y.
Proof.
  change (l ++ [x; y]) with (l ++ [x] ++ [y]).
  rewrite app_assoc. apply last_last.
Qed.

Lemma luminanceTerm_nonempty a : luminanceTerm a <> [].
Proof. unfold luminanceTerm. rewrite js_cons. discriminate. Qed.

(** C9: with sharpness at most 50 the description is the five terms
    joined by single spaces and then one more space, which follows the
    closing parenthesis of the hue term; with sharpness above 50 it is the
    six terms joined by single spaces and ends with the closing
    parenthesis of the sixth.  None of these terms is empty. *)
Theorem filterString_trailing_space :
  (forall a : ImageAdjustments,
      sharpness a <= 50 ->
      filterString a =
        join (js " ") [brightnessTerm a; contrastTerm a; saturateTerm a;
                       opacityTerm a; hueRotateTerm a]
        ++ js " "
      /\ last (join (js " ")
                    [brightnessTerm a; contrastTerm a; saturateTerm a;
                     opacityTerm a; hueRotateTerm a]) 0%N
         = N_of_ascii ")")
  /\
  (forall a : ImageAdjustments,
      sharpness a > 50 ->
      filterString a =
        join (js " ") [brightnessTerm a; contrastTerm a; saturateTerm a;
                       opacityTerm a; hueRotateTerm a; luminanceTerm a]
      /\ last (filterString a) 0%N = N_of_ascii ")")
  /\
  (forall a : ImageAdjustments,
      Forall (fun t => t <> [])
             [brightnessTerm a; contrastTerm a; saturateTerm a;
              opacityTerm a; hueRotateTerm a; luminanceTerm a]).
Proof.
  split; [|split].
  - intros a S.
    assert (E : (sharpness a >? 50) = false)
      by (rewrite Z.gtb_ltb; apply Z.ltb_ge; lia).
    split.
    + unfold filterString, filterTerms. rewrite E.
      cbn [join]. rewrite <- !app_assoc. reflexivity.
    + cbn [join]. unfold hueRotateTerm.
      change (js "deg)") with (js "de" ++ [N_of_ascii "g"; N_of_ascii ")"]).
      rewrite !app_assoc. apply last_snoc2.
  - intros a S.
    assert (E : (sharpness a >? 50) = true) by (apply Z.gtb_lt; lia).
    unfold filterString, filterTerms. rewrite E. split; [reflexivity|].
    cbn [join]. unfold luminanceTerm.
    change (js "%)") with [N_of_ascii "%"; N_of_ascii ")"].
    rewrite !app_assoc. apply last_snoc2.
  - intros a.
    repeat constructor;
      unfold brightnessTerm, contrastTerm, saturateTerm, opacityTerm,
             hueRotateTerm, luminanceTerm;
      rewrite js_cons; discriminate.
Qed.

End FilterClaims.

Section FilterValues.
Import Stdlib.Floats.PrimFloat Stdlib.Floats.FloatOps.
Import Stdlib.Floats.SpecFloat Stdlib.Floats.FloatAxioms.
Import Stdlib.QArith.QArith Stdlib.QArith.Qabs.
Import ImageEditor Double Sliders.
Local Open Scope Z_scope.

(** Two doubles that compare equal print alike. *)
Lemma eqb_toString (x y : float) :
  (x =? y)%float = true -> toString x = toString y.
Proof.
  intros E. rewrite FloatAxioms.eqb_spec in E. revert E.
  unfold toString, SFeqb.
  destruct (Prim2SF x) as [sx | sx | | sx mx ex],
           (Prim2SF y) as [sy | sy | | sy my ey];
    cbn;
    repeat match goal with
           | |- context [if ?b then _ else _] => destruct b
           end;
    try discriminate; try reflexivity;
    destruct (Z.compare_spec ex ey) as [E | E | E]; try discriminate;
    subst ey;
    destruct (Pos.compare_cont Eq mx my) eqn:M; try discriminate;
    apply Pos.compare_eq in M; subst my; reflexivity.
Qed.

(** Below 2^63 the nearest double is the one the primitive conversion
    gives. *)
Lemma ofZ_small (z : Z) : 0 <= z < 2 ^ 63 -> ofZ z = small z.
Proof.
  intros R. unfold ofZ, small.
  assert (N : (z <? 0) = false) by (apply Z.ltb_ge; lia).
  rewrite N.
  rewrite <- (SF2Prim_Prim2SF (of_uint63 (Uint63.of_Z z))).
  rewrite of_uint63_spec, Uint63.of_Z_spec.
  rewrite Z.mod_small; [reflexivity|].
  change Uint63Axioms.wB with (2 ^ 63). exact R.
Qed.

Lemma in_range (lo z : Z) (n : nat) :
  lo <= z < lo + Z.of_nat n -> In z (range lo n).
Proof.
  intros R. unfold range. apply in_map_iff.
  exists (Z.to_nat (z - lo)). split; [lia|].
  apply in_seq. lia.
Qed.

Lemma checked (f : Z -> bool) (lo : Z) (n : nat) (z : Z) :
  forallb f (range lo n) = true ->
  lo <= z < lo + Z.of_nat n -> f z = true.
Proof.
  intros F R. rewrite forallb_forall in F. apply F, in_range, R.
Qed.

Lemma checked2 (f : Z -> Z -> bool) (lo lo' : Z) (n n' : nat) (z z' : Z) :
  forallb (fun x => forallb (f x) (range lo' n')) (range lo n) = true ->
  lo <= z < lo + Z.of_nat n -> lo' <= z' < lo' + Z.of_nat n' ->
  f z z' = true.
Proof.
  intros F R R'.
  apply (checked (f z) lo' n' z'); [|exact R'].
  exact (checked (fun x => forallb (f x) (range lo' n')) lo n z F R).
Qed.

Lemma sameText_eq (a b : jsstring) : sameText a b = true -> a = b.
Proof.
  unfold sameText. destruct (list_eq_dec N.eq_dec a b); [trivial|].
  discriminate.
Qed.

Lemma closeb_close (x : float) (q : Q) : closeb x q = true -> close x q.
Proof.
  unfold closeb, close. destruct (valueOf x) as [v|]; [|discriminate].
  intros L. exists v. split; [reflexivity|]. apply Qle_bool_iff, L.
Qed.

(** Every integer from -100 to 360 prints in decimal notation. *)
Lemma small_prints (z : Z) :
  -100 <= z <= 360 -> toString (small z) = decimal z.
Proof.
  intros R. apply sameText_eq.
  apply (checked (fun z => sameText (toString (small z)) (decimal z))
           (-100) 461 z); [vm_compute; reflexivity | lia].
Qed.

Lemma ofZ_prints (z : Z) : 0 <= z <= 360 -> toString (ofZ z) = decimal z.
Proof.
  intros R. rewrite ofZ_small by lia. apply small_prints. lia.
Qed.

(** Sums of slider values are exact. *)
Lemma saturateOf_exact (s v : Z) :
  0 <= s <= 200 -> 0 <= v <= 200 ->
  toString (saturateOf s v) = decimal (s + (v - 100)).
Proof.
  intros Rs Rv. rewrite <- small_prints by lia.
  apply eqb_toString.
  apply (checked2
           (fun s v => (saturateOf s v =? small (s + (v - 100)))%float)
           0 0 201 201 s v); [vm_compute; reflexivity | lia | lia].
Qed.

(** A sharpness that is a multiple of 5 adds a whole number. *)
Lemma contrastOf_exact (c j : Z) :
  0 <= c <= 200 -> 0 <= j <= 20 ->
  toString (contrastOf c (5 * j)) = decimal (c + j).
Proof.
  intros Rc Rj. rewrite <- small_prints by lia.
  apply eqb_toString.
  apply (checked2
           (fun c j => (contrastOf c (5 * j) =? small (c + j))%float)
           0 0 201 21 c j); [vm_compute; reflexivity | lia | lia].
Qed.

Lemma contrastOf_close (c s : Z) :
  0 <= c <= 200 -> 0 <= s <= 100 ->
  close (contrastOf c s) (inject_Z c + 0.2 * inject_Z s)%Q.
Proof.
  intros Rc Rs. apply closeb_close.
  apply (checked2
           (fun c s =>
              closeb (contrastOf c s) (inject_Z c + 0.2 * inject_Z s)%Q)
           0 0 201 101 c s); [vm_compute; reflexivity | lia | lia].
Qed.

Lemma luminanceOf_exact (j : Z) :
  0 <= j <= 5 -> toString (luminanceOf (20 * j)) = decimal (100 + j).
Proof.
  intros Rj. rewrite <- small_prints by lia.
  apply eqb_toString.
  apply (checked
           (fun j => (luminanceOf (20 * j) =? small (100 + j))%float)
           0 6 j); [vm_compute; reflexivity | lia].
Qed.

Lemma luminanceOf_close (s : Z) :
  0 <= s <= 100 ->
  close (luminanceOf s) (100 + 0.05 * inject_Z s)%Q.
Proof.
  intros Rs. apply closeb_close.
  apply (checked
           (fun s => closeb (luminanceOf s) (100 + 0.05 * inject_Z s)%Q)
           0 101 s); [vm_compute; reflexivity | lia].
Qed.

Lemma contrastNumber_small (a : ImageAdjustments) :
  0 <= contrast a <= 200 -> 0 <= sharpness a <= 100 ->
  contrastNumber a = contrastOf (contrast a) (sharpness a).
Proof.
  intros Rc Rs. unfold contrastNumber, contrastOf.
  rewrite !ofZ_small by lia. reflexivity.
Qed.

Lemma saturateNumber_small (a : ImageAdjustments) :
  0 <= saturation a <= 200 -> 0 <= vibrance a <= 200 ->
  saturateNumber a = saturateOf (saturation a) (vibrance a).
Proof.
  intros Rs Rv. unfold saturateNumber, saturateOf.
  rewrite !ofZ_small by lia. reflexivity.
Qed.

Lemma luminanceNumber_small (a : ImageAdjustments) :
  0 <= sharpness a <= 100 ->
  luminanceNumber a = luminanceOf (sharpness a).
Proof.
  intros Rs. unfold luminanceNumber, luminanceOf.
  rewrite !ofZ_small by lia. reflexivity.
Qed.

Lemma contrastTerm_number (a : ImageAdjustments) :
  contrastTerm (num := float) a
  = js "contrast(" ++ toString (contrastNumber a) ++ js "%)".
Proof. reflexivity. Qed.

Lemma luminanceTerm_number (a : ImageAdjustments) :
  luminanceTerm (num := float) a
  = js "brightness(" ++ toString (luminanceNumber a) ++ js "%)".
Proof. reflexivity. Qed.

(** C5: over the doubles of the program, the terms of the description
    are, in this order, brightness with the brightness channel, contrast
    with contrast + sharpness * 0.2, saturate with
    saturation + (vibrance - 100), opacity with the exposure channel,
    hue-rotate with the hue channel, and a sixth element that is the
    brightness term of 100 + sharpness * 0.05 exactly when sharpness is
    above 50 and is empty otherwise.  For the values the sliders deliver
    the numbers are pinned down: the brightness, exposure and hue
    channels and the sum saturation + (vibrance - 100) are printed as
    these integers; the contrast number lies within 2^-45 of
    contrast + 0.2 * sharpness and is printed as the integer
    contrast + sharpness / 5 when sharpness is a multiple of 5; the
    luminance number lies within 2^-45 of 100 + 0.05 * sharpness and is
    printed as the integer 100 + sharpness / 20 when sharpness is a
    multiple of 20.  With sharpness 80 the description ends with the
    extra term brightness(104%) and its contrast number is contrast + 16;
    with sharpness 40 it ends with a space after the hue term and its
    contrast number is contrast + 8. *)
Theorem filter_coupling_rules :
  (forall a : ImageAdjustments,
      filterTerms (num := float) a =
        [ js "brightness(" ++ toString (ofZ (brightness a)) ++ js "%)";
          js "contrast(" ++ toString (contrastNumber a) ++ js "%)";
          js "saturate(" ++ toString (saturateNumber a) ++ js "%)";
          js "opacity(" ++ toString (ofZ (exposure a)) ++ js "%)";
          js "hue-rotate(" ++ toString (ofZ (hue a)) ++ js "deg)";
          nth 5 (filterTerms (num := float) a) [] ]
      /\ (nth 5 (filterTerms (num := float) a) []
          = js "brightness(" ++ toString (luminanceNumber a) ++ js "%)"
          <-> sharpness a > 50)
      /\ (nth 5 (filterTerms (num := float) a) [] = []
          <-> sharpness a <= 50))
  /\
  (forall a : ImageAdjustments,
      onSliders a ->
      toString (ofZ (brightness a)) = decimal (brightness a)
      /\ toString (ofZ (exposure a)) = decimal (exposure a)
      /\ toString (ofZ (hue a)) = decimal (hue a)
      /\ toString (saturateNumber a)
         = decimal (saturation a + (vibrance a - 100))
      /\ close (contrastNumber a)
               (inject_Z (contrast a) + 0.2 * inject_Z (sharpness a))%Q
      /\ (sharpness a mod 5 = 0 ->
          toString (contrastNumber a)
          = decimal (contrast a + sharpness a / 5))
      /\ close (luminanceNumber a)
               (100 + 0.05 * inject_Z (sharpness a))%Q
      /\ (sharpness a mod 20 = 0 ->
          toString (luminanceNumber a)
          = decimal (100 + sharpness a / 20)))
  /\
  (forall a : ImageAdjustments,
      sharpness a = 80 ->
      filterString (num := float) a =
        join (js " ") [brightnessTerm a; contrastTerm a; saturateTerm a;
                       opacityTerm a; hueRotateTerm a]
        ++ js " brightness(104%)"
      /\ (0 <= contrast a <= 200 ->
          contrastTerm (num := float) a
          = js "contrast(" ++ decimal (contrast a + 16) ++ js "%)"))
  /\
  (forall a : ImageAdjustments,
      sharpness a = 40 ->
      filterString (num := float) a =
        join (js " ") [brightnessTerm a; contrastTerm a; saturateTerm a;
                       opacityTerm a; hueRotateTerm a]
        ++ js " "
      /\ (0 <= contrast a <= 200 ->
          contrastTerm (num := float) a
          = js "contrast(" ++ decimal (contrast a + 8) ++ js "%)")).
Proof.
  split; [|split; [|split]].
  - intros a. split; [reflexivity|].
    unfold filterTerms. cbn [nth].
    rewrite <- luminanceTerm_number.
    destruct (sharpness a >? 50) eqn:E.
    + apply Z.gtb_lt in E. split; split; try reflexivity; try lia.
      intros L. exfalso. exact (luminanceTerm_nonempty a L).
    + rewrite Z.gtb_ltb in E. apply Z.ltb_ge in E.
      split; split; try reflexivity; try lia.
      intros L. exfalso. symmetry in L.
      exact (luminanceTerm_nonempty a L).
  - intros a (Rb & Rc & Rs & Re & Rh & Rv & Rp).
    repeat split.
    + apply ofZ_prints. lia.
    + apply ofZ_prints. lia.
    + apply ofZ_prints. lia.
    + rewrite saturateNumber_small by lia.
      apply saturateOf_exact; lia.
    + rewrite contrastNumber_small by lia.
      apply contrastOf_close; lia.
    + intros M. rewrite contrastNumber_small by lia.
      rewrite (Z.div_mod (sharpness a) 5) at 1 by lia.
      rewrite M, Z.add_0_r.
      apply contrastOf_exact; [lia|].
      split; [apply Z.div_pos; lia|].
      apply Z.div_le_upper_bound; lia.
    + rewrite luminanceNumber_small by lia.
      apply luminanceOf_close; lia.
    + intros M. rewrite luminanceNumber_small by lia.
      rewrite (Z.div_mod (sharpness a) 20) at 1 by lia.
      rewrite M, Z.add_0_r.
      apply luminanceOf_exact.
      split; [apply Z.div_pos; lia|].
      apply Z.div_le_upper_bound; lia.
  - intros a S80. split.
    + unfold filterString, filterTerms. rewrite S80.
      change (80 >? 50) with true. cbv iota.
      rewrite luminanceTerm_number.
      rewrite luminanceNumber_small by lia. rewrite S80.
      change 80 with (20 * 4).
      rewrite luminanceOf_exact by lia.
      cbn [join]. rewrite <- !app_assoc. reflexivity.
    + intros Rc. rewrite contrastTerm_number.
      rewrite contrastNumber_small by lia. rewrite S80.
      change 80 with (5 * 16).
      rewrite contrastOf_exact by lia. reflexivity.
  - intros a S40. split.
    + unfold filterString, filterTerms. rewrite S40.
      change (40 >? 50) with false. cbv iota.
      cbn [join]. rewrite <- !app_assoc. reflexivity.
    + intros Rc. rewrite contrastTerm_number.
      rewrite contrastNumber_small by lia. rewrite S40.
      change 40 with (5 * 8).
      rewrite contrastOf_exact by lia. reflexivity.
Qed.

End FilterValues.

Section FilterExamples.
Import Stdlib.Floats.PrimFloat Stdlib.Floats.FloatOps.
Import Stdlib.Floats.SpecFloat.
Import ImageEditor Double Sliders.

Lemma filter_coupling_rules_witness :
  filterString (num := float) (update DEFAULT_ADJUSTMENTS Sharpness 80)
  = js "brightness(100%) contrast(116%) saturate(100%) opacity(100%) hue-rotate(0deg) brightness(104%)".
Proof.
  rewrite (proj1 (proj1 (proj2 (proj2 filter_coupling_rules))
                    (update DEFAULT_ADJUSTMENTS Sharpness 80) eq_refl)).
  vm_compute. reflexivity.
Defined.

Lemma filterString_trailing_space_witness :
  filterString (num := float) (update DEFAULT_ADJUSTMENTS Sharpness 40)
  = js "brightness(100%) contrast(108%) saturate(100%) opacity(100%) hue-rotate(0deg) ".
Proof.
  assert (S : sharpness (update DEFAULT_ADJUSTMENTS Sharpness 40) <= 50)
    by (vm_compute; discriminate).
  rewrite (proj1 (proj1 (filterString_trailing_space (num := float))
             (update DEFAULT_ADJUSTMENTS Sharpness 40) S)).
  vm_compute. reflexivity.
Defined.

(** The default vector: contrast and saturation at 100%, no sixth term. *)
Example filterString_default :
  filterString (num := float) DEFAULT_ADJUSTMENTS
  = js "brightness(100%) contrast(100%) saturate(100%) opacity(100%) hue-rotate(0deg) ".
Proof. vm_compute. reflexivity. Qed.

(** The rounding of the doubles shows in the description for some
    slider values: 3 * 0.2 is not the double nearest to 0.6. *)
Example contrast_rounding_shows :
  contrastTerm (num := float)
    (update (update DEFAULT_ADJUSTMENTS Contrast 0) Sharpness 3)
  = js "contrast(0.6000000000000001%)"
  /\ contrastTerm (num := float)
       (update (update DEFAULT_ADJUSTMENTS Contrast 0) Sharpness 5)
     = js "contrast(1%)"
  /\ luminanceTerm (num := float) (update DEFAULT_ADJUSTMENTS Sharpness 57)
     = js "brightness(102.85%)".
Proof. vm_compute. repeat split. Qed.

(** The literals are the doubles nearest to 0.2 and 0.05. *)
Example literals_are_nearest :
  Prim2SF (lit_0_2 (num := float))
  = S754_finite false 7205759403792794 (-55)
  /\ roundsTo 2 (-1) 7205759403792794 (-55) = true
  /\ Prim2SF (lit_0_05 (num := float))
     = S754_finite false 7205759403792794 (-57)
  /\ roundsTo 5 (-2) 7205759403792794 (-57) = true.
Proof. vm_compute. repeat split. Qed.

(** The layouts of [toString]: integers up to 21 digits, fractions down
    to 1e-6, the exponent form beyond, and the values that are not
    finite numbers. *)
#[warnings="-inexact-float"] Example toString_layouts :
  map toString
      [ 100; 1e21; 123456789012345680000; 9007199254740992; 0.5;
        (0.1 + 0.2); 4.35; 0.000001; 1e-7; 1.5e-10; 5e-324;
        1.7976931348623157e308; (- 2.5); neg_zero; infinity;
        neg_infinity; nan ]%float
  = map js
      [ "100"; "1e+21"; "123456789012345680000"; "9007199254740992";
        "0.5"; "0.30000000000000004"; "4.35"; "0.000001"; "1e-7";
        "1.5e-10"; "5e-324"; "1.7976931348623157e+308"; "-2.5"; "0";
        "Infinity"; "-Infinity"; "NaN" ]%string.
Proof. vm_compute. reflexivity. Qed.

End FilterExamples.

(** ** The retry wrapper *)

Section RetryClaims.
Import GeminiService Remote.
Context {T W : Type}.
Implicit Types (fn : @Thunk T W) (e err : JsError).

Lemma isRetryable_transient err : isRetryable err = true <-> transient err.
Proof.
  unfold isRetryable, transient, transientMarkers. cbv zeta.
  rewrite !orb_true_iff. split.
  - intros [[[M|M]|M]|M]; eexists; (split; [|exact M]); simpl; tauto.
  - intros (m & I & M). simpl in I.
    destruct I as [<-|[<-|[<-|[<-|[]]]]]; tauto.
Qed.

Lemma callWithRetry_resolve fn retries delay w v w1 :
  fn w = (inl v, w1) ->
  callWithRetry fn retries delay w = (inl v, w1, [Call]).
Proof. intros E. rewrite callWithRetry_equation_1, E. reflexivity. Qed.

Lemma callWithRetry_retry fn retries delay w err w1 :
  fn w = (inr err, w1) -> isRetryable err = true -> retries > 0 ->
  callWithRetry fn retries delay w =
    after [Call; Warn (statusOr0 err) delay; Sleep delay]
          (callWithRetry fn (retries - 1) (delay * 2) w1).
Proof.
  intros E R P. rewrite callWithRetry_equation_1 at 1. rewrite E, R.
  destruct (Z_gt_dec retries 0); [reflexivity | contradiction].
Qed.

Lemma callWithRetry_reject fn retries delay w err w1 :
  fn w = (inr err, w1) -> isRetryable err = false \/ retries <= 0 ->
  callWithRetry fn retries delay w = (inr err, w1, [Call]).
Proof.
  intros E H. rewrite callWithRetry_equation_1, E.
  destruct (isRetryable err); [|reflexivity].
  destruct (Z_gt_dec retries 0); [|reflexivity].
  destruct H; [discriminate | lia].
Qed.

(** C1: a wrapped operation that rejects twice with a transient failure
    and then resolves makes the wrapper, called with its defaults (budget
    3, delay 1000), return the resolved value after exactly three calls
    and two waits, of 1000 and of 2 * 1000 ms.  After a transient failure
    with budget left the wrapper waits for the delay and goes on with the
    budget less one and the delay doubled.  A failure that is not
    transient, or that comes with no budget left, is returned as it is,
    after this one call and no wait. *)
Theorem retry_policy :
  (forall fn w, callWithRetry_default fn w = callWithRetry fn 3 1000 w)
  /\
  (forall fn w0 w1 w2 w3 e1 e2 v,
      fn w0 = (inr e1, w1) -> fn w1 = (inr e2, w2) ->
      fn w2 = (inl v, w3) ->
      transient e1 -> transient e2 ->
      exists tr,
        callWithRetry_default fn w0 = (inl v, w3, tr)
        /\ sleeps tr = [1000; 2 * 1000]
        /\ calls tr = 3%nat)
  /\
  (forall fn retries delay w err w1,
      fn w = (inr err, w1) -> transient err -> retries > 0 ->
      callWithRetry fn retries delay w =
        after [Call; Warn (statusOr0 err) delay; Sleep delay]
              (callWithRetry fn (retries - 1) (delay * 2) w1))
  /\
  (forall fn retries delay w err w1,
      fn w = (inr err, w1) -> ~ transient err \/ retries <= 0 ->
      callWithRetry fn retries delay w = (inr err, w1, [Call])).
Proof.
  split; [reflexivity|]. split; [|split].
  - intros fn w0 w1 w2 w3 e1 e2 v F0 F1 F2 T1 T2.
    apply isRetryable_transient in T1, T2.
    unfold callWithRetry_default.
    rewrite (callWithRetry_retry fn 3 1000 w0 e1 w1 F0 T1) by lia.
    rewrite (callWithRetry_retry fn (3 - 1) (1000 * 2) w1 e2 w2 F1 T2)
      by lia.
    rewrite (callWithRetry_resolve fn _ _ w2 v w3 F2).
    eexists. split; [reflexivity|]. split; reflexivity.
  - intros fn retries delay w err w1 F Tr P.
    apply callWithRetry_retry; [exact F | | exact P].
    apply isRetryable_transient, Tr.
  - intros fn retries delay w err w1 F H.
    apply callWithRetry_reject; [exact F|].
    destruct H as [H|H]; [left | right; exact H].
    destruct (isRetryable err) eqn:R; [|reflexivity].
    exfalso. apply H, isRetryable_transient, R.
Qed.

(** Whatever the wrapped operation does, the wrapper returns: it calls
    the operation at most [retries + 1] times when [retries] is not
    negative, and once otherwise. *)
Lemma callWithRetry_calls_bounded fn (n : nat) : forall retries delay w,
  Z.to_nat retries = n ->
  (calls (snd (callWithRetry fn retries delay w)) <= S n)%nat.
Proof.
  induction n as [|n IH]; intros retries delay w En;
    rewrite callWithRetry_equation_1;
    destruct (fn w) as [[v|err] w1]; cbn [snd calls]; try lia;
    destruct (isRetryable err); cbn [snd calls]; try lia;
    destruct (Z_gt_dec retries 0); cbn [snd calls]; try lia.
  specialize (IH (retries - 1) (delay * 2) w1 ltac:(lia)).
  destruct (callWithRetry fn (retries - 1) (delay * 2) w1) as [[r w2] tr].
  cbn [after snd app calls] in *. lia.
Qed.

End RetryClaims.

Section RetryExamples.
Import GeminiService Remote.

Lemma retry_policy_witness :
  callWithRetry_default (failing 2 error429 7) 0%nat
  = (inl 7, 3%nat,
     [Call; Warn 429 1000; Sleep 1000;
      Call; Warn 429 2000; Sleep 2000;
      Call]).
Proof.
  assert (Tr : transient error429).
  { exists (js "429"). split; [simpl; tauto | reflexivity]. }
  rewrite (proj1 retry_policy).
  rewrite (proj1 (proj2 (proj2 retry_policy))
             (failing 2 error429 7) 3 1000 0%nat error429 1%nat
             eq_refl Tr eq_refl).
  rewrite (proj1 (proj2 (proj2 retry_policy))
             (failing 2 error429 7) (3 - 1) (1000 * 2) 1%nat error429 2%nat
             eq_refl Tr eq_refl).
  reflexivity.
Defined.

(** A failure without a marker is returned after the first call. *)
Example hard_failure_not_retried :
  callWithRetry_default (failing 2 error400 7) 0%nat
  = (inr error400, 1%nat, [Call]).
Proof. reflexivity. Qed.

(** With every call failing on quota the wrapper gives up after four
    calls and three waits and returns the failure. *)
Example budget_exhausted :
  callWithRetry_default (failing 10 error429 7) 0%nat
  = (inr error429, 4%nat,
     [Call; Warn 429 1000; Sleep 1000;
      Call; Warn 429 2000; Sleep 2000;
      Call; Warn 429 4000; Sleep 4000;
      Call]).
Proof. reflexivity. Qed.

End RetryExamples.

(** ** Parsing the discovery response *)

Section ParseClaims.
Import GeminiService Remote.



Lemma scanSection_app acc section :
  scanSection acc section = acc ++ scanSection [] section.
Proof.
  unfold scanSection.
  destruct (matchField (js "PROMPT:") section);
    [reflexivity | symmetry; apply app_nil_r].
Qed.

Lemma fold_scanSection l : forall acc,
  fold_left scanSection l acc = acc ++ flat_map (scanSection []) l.
Proof.
  induction l as [|s l IH]; intros acc; cbn [fold_left flat_map].
  - symmetry. apply app_nil_r.
  - rewrite IH, (scanSection_app acc s). symmetry. apply app_assoc.
Qed.




Lemma filter_none {A} (f : A -> bool) (l : list A) :
  (forall x, In x l -> f x = false) -> filter f l = [].
Proof.
  induction l as [|x l IH]; intros Hf; [reflexivity|].
  cbn [filter]. rewrite (Hf x (or_introl eq_refl)).
  apply IH. intros y I. apply Hf. right. exact I.
Qed.


End ParseClaims.

Section ParseExamples.
Import GeminiService Remote.


(** A section with only a prompt body gets the placeholders. *)
Example scanPrompts_placeholders :
  scanPrompts (Some (js "intro --- PROMPT: a red fox"))
  = [ {| title := js "Style Trace";
         prompt := js "a red fox";
         source := js "Global Crawl";
         tags := Some [js "Web Source"] |} ].
Proof. reflexivity. Qed.

(** The filter looks for the label in capitals, the pattern ignores
    case: a section whose only label is in small letters is dropped. *)
Example scanPrompts_lowercase_label :
  scanPrompts (Some (js "--- title: x" ++ nl ++ js "prompt: y")) = [].
Proof. reflexivity. Qed.

End ParseExamples.

(** ** Connection health *)

Section HealthClaims.
Import GeminiService Remote App.

Lemma events_app (es1 es2 : list Event) (s : AppState) :
  run (es1 ++ es2) s = run es2 (run es1 s).
Proof. apply fold_left_app. Qed.

(** While the interval is installed and the counter stays positive,
    [k] ticks take [k] off the counter and change nothing else. *)
Lemma countdown (k : nat) : forall s,
  ticking s = true -> cooldown s > Z.of_nat k ->
  run (repeat Tick k) s
  = {| connection := connection s;
       cooldown := cooldown s - Z.of_nat k;
       error := error s;
       ticking := true |}.
Proof.
  induction k as [|k IH]; intros s Tk C.
  - destruct s as [c d e t]. cbn in *. subst t. f_equal. lia.
  - cbn [repeat]. change (run (Tick :: repeat Tick k) s)
      with (run (repeat Tick k) (step Tick s)).
    assert (S1 : step Tick s
                 = {| connection := connection s;
                      cooldown := cooldown s - 1;
                      error := error s; ticking := true |}).
    { unfold step, handler, tick, cooldownEffect. rewrite Tk.
      cbn [cooldown connection error ticking].
      assert (G : (cooldown s - 1 >? 0) = true) by (apply Z.gtb_lt; lia).
      rewrite G. reflexivity. }
    rewrite S1, IH; cbn [cooldown connection error ticking];
      [f_equal; lia | reflexivity | lia].
Qed.

(** C8 (a defect of the code): at startup a probe that fails on quota
    sets the state to throttled but no cooldown, so the counter is still 0
    and the effect that follows sets the state back to online at once: the
    throttled state with its countdown, which the effect is written for,
    never takes place.  The handler of a failed search does the opposite:
    it sets the cooldown to 30 and leaves the state as it is. *)
Lemma probe_sets_no_cooldown :
  quotaProbe
  = {| success := false; message := js "Quota Alert";
       isQuota := Some true; details := Some (toString error429) |}
  /\ connection (checkHealth_end quotaProbe
                   (checkHealth_begin initialState)) = Throttled
  /\ cooldown (checkHealth_end quotaProbe
                 (checkHealth_begin initialState)) = 0
  /\ run [ProbeStart; ProbeDone quotaProbe] initialState
     = {| connection := Online; cooldown := 0;
          error := Some {| msg := js "Quota Alert";
                           info := Some (toString error429);
                           type := Some Quota |};
          ticking := false |}
  /\ cooldown (handleSearch_catch error429 initialState) = 30
  /\ connection (handleSearch_catch error429 initialState) = Checking.
Proof. repeat split; reflexivity. Qed.

(** The transitions as the handlers and the effect make them: the end of
    a probe sets the state to online on success, to throttled on a failure
    classified quota and to error on any other failure, and leaves the
    cooldown counter as it is; a discovery call that fails on quota sets the
    counter to 30 and leaves the state as it is.  While the interval is
    installed a tick takes one off the counter; the effect keeps the
    interval installed while the counter is positive and, when the counter
    is not positive and the state is throttled, sets the state to online.
    From a throttled state with [n] seconds left, [n] ticks and no other
    event lead to online with the counter at 0. *)
Theorem connection_health_transitions :
  (forall res s,
      success res = true ->
      connection (checkHealth_end res s) = Online
      /\ cooldown (checkHealth_end res s) = cooldown s)
  /\
  (forall res s,
      success res = false -> isQuota res = Some true ->
      connection (checkHealth_end res s) = Throttled
      /\ cooldown (checkHealth_end res s) = cooldown s)
  /\
  (forall res s,
      success res = false -> isQuota res <> Some true ->
      connection (checkHealth_end res s) = Error
      /\ cooldown (checkHealth_end res s) = cooldown s)
  /\
  (forall err s,
      includes (toLowerCase (toString err)) (js "429")
      || includes (toLowerCase (toString err)) (js "quota") = true ->
      cooldown (handleSearch_catch err s) = 30
      /\ connection (handleSearch_catch err s) = connection s)
  /\
  (forall s,
      ticking s = true ->
      cooldown (tick s) = cooldown s - 1
      /\ connection (tick s) = connection s)
  /\
  (forall s,
      cooldown s > 0 ->
      ticking (cooldownEffect s) = true
      /\ connection (cooldownEffect s) = connection s
      /\ cooldown (cooldownEffect s) = cooldown s)
  /\
  (forall s,
      connection s = Throttled -> cooldown s <= 0 ->
      connection (cooldownEffect s) = Online
      /\ ticking (cooldownEffect s) = false)
  /\
  (forall (n : nat) s,
      connection s = Throttled -> ticking s = true ->
      cooldown s = Z.of_nat (S n) ->
      connection (run (repeat Tick n) s) = Throttled
      /\ cooldown (run (repeat Tick n) s) = 1
      /\ connection (run (repeat Tick (S n)) s) = Online
      /\ cooldown (run (repeat Tick (S n)) s) = 0).
Proof.
  repeat match goal with |- _ /\ _ => split end.
  - intros res s S. unfold checkHealth_end. rewrite S. auto.
  - intros res s S Q. unfold checkHealth_end. rewrite S, Q. auto.
  - intros res s S Q. unfold checkHealth_end. rewrite S.
    destruct (isQuota res) as [[|]|]; cbn; auto. congruence.
  - intros err s Q. unfold handleSearch_catch. cbv zeta.
    rewrite Q. auto.
  - intros s Tk. unfold tick. rewrite Tk. auto.
  - intros s C. unfold cooldownEffect.
    assert (G : (cooldown s >? 0) = true) by (apply Z.gtb_lt; lia).
    rewrite G. auto.
  - intros s Th C. unfold cooldownEffect.
    assert (G : (cooldown s >? 0) = false)
      by (rewrite Z.gtb_ltb; apply Z.ltb_ge; lia).
    rewrite G, Th. auto.
  - intros n s Th Tk C.
    assert (R : run (repeat Tick n) s
                = {| connection := Throttled; cooldown := 1;
                     error := error s; ticking := true |}).
    { rewrite countdown by (try assumption; lia).
      rewrite Th. f_equal. lia. }
    replace (S n) with (n + 1)%nat by lia.
    rewrite repeat_app, events_app, R. auto.
Qed.

Lemma connection_health_transitions_witness :
  connection (run (repeat Tick 30)
                  (run [SearchFailed error429; ProbeStart;
                        ProbeDone quotaProbe] initialState))
  = Online.
Proof.
  refine (proj1 (proj2 (proj2
            (proj2 (proj2 (proj2 (proj2 (proj2 (proj2 (proj2
               connection_health_transitions)))))) 29%nat
               (run [SearchFailed error429; ProbeStart;
                     ProbeDone quotaProbe] initialState) _ _ _)))).
  all: reflexivity.
Defined.

(** A probe that fails without a quota marker ends in error, one that
    succeeds ends in online. *)
Example probe_hard_failure :
  connection (run [ProbeStart; ProbeDone hardProbe] initialState) = Error.
Proof. reflexivity. Qed.

End HealthClaims.

(* ===================================================================== *)
(** * Part III: further properties of the code                            *)
(* ===================================================================== *)

(** ** The retry wrapper: attempts and waits *)

Section RetryShape.
Import GeminiService Remote Notions.
Context {T W : Type}.
Implicit Types (fn : @Thunk T W) (e err : JsError).

Lemma after_calls (pre : list Event) (o : @Outcome T W) :
  calls (snd (after pre o)) = (calls pre + calls (snd o))%nat.
Proof.
  destruct o as [[r w] tr]. cbn [after snd].
  induction pre as [|[| |] pre IH]; cbn [app calls]; lia.
Qed.

Lemma after_sleeps (pre : list Event) (o : @Outcome T W) :
  sleeps (snd (after pre o)) = sleeps pre ++ sleeps (snd o).
Proof.
  destruct o as [[r w] tr]. cbn [after snd].
  induction pre as [|[| |] pre IH]; cbn [app sleeps]; congruence.
Qed.

Lemma shape_by_budget fn (n : nat) : forall retries delay w,
  Z.to_nat retries = n ->
  exists k, (k <= n)%nat
            /\ calls (snd (callWithRetry fn retries delay w)) = S k
            /\ sleeps (snd (callWithRetry fn retries delay w))
               = backoff delay k.
Proof.
  induction n as [|n IH]; intros retries delay w En;
    rewrite callWithRetry_equation_1;
    destruct (fn w) as [[v|err] w1];
    try (exists O; cbn; repeat split; lia);
    destruct (isRetryable err);
    try (exists O; cbn; repeat split; lia);
    destruct (Z_gt_dec retries 0);
    try (exists O; cbn; repeat split; lia).
  destruct (IH (retries - 1) (delay * 2) w1 ltac:(lia))
    as (k & Hk & Hc & Hs).
  exists (S k). rewrite after_calls, after_sleeps, Hc, Hs.
  cbn. repeat split; lia.
Qed.





Lemma spent_by_budget fn (n : nat) : forall retries delay w err w' tr,
  Z.to_nat retries = n ->
  callWithRetry fn retries delay w = (inr err, w', tr) ->
  isRetryable err = true ->
  calls tr = S n /\ sleeps tr = backoff delay n.
Proof.
  induction n as [|n IH]; intros retries delay w err w' tr En;
    rewrite callWithRetry_equation_1;
    destruct (fn w) as [[v|e1] w1]; try discriminate;
    destruct (isRetryable e1) eqn:R1;
    try (intros E R; injection E as <- <- <-; congruence);
    destruct (Z_gt_dec retries 0);
    try (intros E R; injection E as <- <- <-; split; reflexivity);
    try lia.
  intros E R.
  destruct (callWithRetry fn (retries - 1) (delay * 2) w1)
    as [[r2 w2] tr2] eqn:E2.
  cbn [after] in E. injection E as -> <- <-.
  destruct (IH (retries - 1) (delay * 2) w1 err w2 tr2 ltac:(lia) E2 R)
    as [Hc Hs].
  cbn [app calls sleeps backoff]. rewrite Hc, Hs. split; reflexivity.
Qed.

(** X2: a failure that the wrapper classifies as transient reaches the
    caller only when the whole budget is spent: the operation was then
    called once more than the budget and every wait of the backoff was
    made. *)
Theorem transient_failure_spends_budget fn retries delay w err w' tr :
  callWithRetry fn retries delay w = (inr err, w', tr) ->
  isRetryable err = true ->
  calls tr = S (Z.to_nat retries)
  /\ sleeps tr = backoff delay (Z.to_nat retries).
Proof. apply spent_by_budget. reflexivity. Qed.

Lemma result_by_budget fn (n : nat) : forall retries delay w r w' tr,
  Z.to_nat retries = n ->
  callWithRetry fn retries delay w = (r, w', tr) ->
  exists w0, fn w0 = (r, w').
Proof.
  induction n as [|n IH]; intros retries delay w r w' tr En;
    rewrite callWithRetry_equation_1;
    destruct (fn w) as [[v|e1] w1] eqn:F;
    try (intros E; injection E as <- <- _; exists w; exact F);
    destruct (isRetryable e1);
    try (intros E; injection E as <- <- _; exists w; exact F);
    destruct (Z_gt_dec retries 0);
    try (intros E; injection E as <- <- _; exists w; exact F);
    try lia.
  destruct (callWithRetry fn (retries - 1) (delay * 2) w1)
    as [[r2 w2] tr2] eqn:C.
  cbn [after]. intros E. injection E as <- <- _.
  apply (IH (retries - 1) (delay * 2) w1 r2 w2 tr2); [lia | exact C].
Qed.

(** X9: the wrapper makes up no result: the value or the failure it
    returns, and the world it leaves, are those of one of its calls of the
    wrapped operation. *)
Theorem callWithRetry_returns_a_call_result fn retries delay w r w' tr :
  callWithRetry fn retries delay w = (r, w', tr) ->
  exists w0, fn w0 = (r, w').
Proof. apply (result_by_budget fn (Z.to_nat retries)). reflexivity. Qed.

End RetryShape.

Section RetryShapeExamples.
Import GeminiService Remote Notions.

Lemma transient_failure_spends_budget_witness :
  calls [Call; Warn 429 1000; Sleep 1000;
         Call; Warn 429 2000; Sleep 2000;
         Call; Warn 429 4000; Sleep 4000;
         Call] = 4%nat
  /\ sleeps [Call; Warn 429 1000; Sleep 1000;
             Call; Warn 429 2000; Sleep 2000;
             Call; Warn 429 4000; Sleep 4000;
             Call] = [1000; 2000; 4000].
Proof.
  exact (transient_failure_spends_budget
           (rejecting (T := nat) error429) 3 1000 0%nat error429 4%nat
           [Call; Warn 429 1000; Sleep 1000;
            Call; Warn 429 2000; Sleep 2000;
            Call; Warn 429 4000; Sleep 4000;
            Call] eq_refl eq_refl).
Defined.

Lemma callWithRetry_returns_a_call_result_witness :
  exists w0, failing 2 error429 7 w0 = (inl 7, 3%nat).
Proof.
  exact (callWithRetry_returns_a_call_result
           (failing 2 error429 7) 3 1000 0%nat (inl 7) 3%nat
           [Call; Warn 429 1000; Sleep 1000;
            Call; Warn 429 2000; Sleep 2000;
            Call] eq_refl).
Defined.

End RetryShapeExamples.

(** ** Strings: trimming and splitting *)

Section StringFacts.
Import Notions.

Lemma dropWhile_all f s : forallb f s = true -> dropWhile f s = [].
Proof.
  induction s as [|c s IH]; cbn [forallb dropWhile]; [reflexivity|].
  intros E. apply andb_true_iff in E. destruct E as [-> E]. auto.
Qed.

Lemma dropWhile_keeps f s :
  existsb (fun c => negb (f c)) s = true ->
  existsb (fun c => negb (f c)) (dropWhile f s) = true.
Proof.
  induction s as [|c s IH]; cbn [existsb dropWhile]; [trivial|].
  destruct (f c) eqn:F; cbn [negb orb]; [exact IH|].
  intros _. cbn [existsb]. rewrite F. reflexivity.
Qed.

Lemma existsb_reverse {A} (g : A -> bool) (l : list A) :
  existsb g (rev l) = existsb g l.
Proof.
  induction l as [|x l IH]; [reflexivity|].
  cbn [rev existsb]. rewrite existsb_app, IH. cbn [existsb].
  rewrite orb_false_r. apply orb_comm.
Qed.

Lemma trim_blank s : forallb isSpace s = true -> trim s = [].
Proof. intros B. unfold trim. rewrite (dropWhile_all _ _ B). reflexivity. Qed.

Lemma trim_not_blank s : forallb isSpace s = false -> trim s <> [].
Proof.
  intros B.
  assert (E : existsb (fun c => negb (isSpace c)) s = true).
  { clear -B. induction s as [|c s IH]; [discriminate|].
    cbn [forallb existsb] in *. destruct (isSpace c); cbn in *; auto. }
  assert (F : existsb (fun c => negb (isSpace c)) (trim s) = true).
  { unfold trim. rewrite existsb_reverse. apply dropWhile_keeps.
    rewrite existsb_reverse. apply dropWhile_keeps, E. }
  intros N. rewrite N in F. discriminate.
Qed.

(** [dropWhile] splits a string into the dropped run and what is left. *)
Lemma dropWhile_split f s :
  exists d, s = d ++ dropWhile f s /\ forallb f d = true.
Proof.
  induction s as [|c s (d & E & F)]; [exists []; auto|].
  cbn [dropWhile]. destruct (f c) eqn:Fc.
  - exists (c :: d). cbn [app forallb]. rewrite Fc, F.
    split; [congruence | reflexivity].
  - exists []. auto.
Qed.

Lemma dropWhile_head f s c t : dropWhile f s = c :: t -> f c = false.
Proof.
  induction s as [|x s IH]; cbn [dropWhile]; [discriminate|].
  destruct (f x) eqn:F; [exact IH|]. intros E. injection E as <- _. exact F.
Qed.

Lemma trim_trimmed s : trimmed (trim s).
Proof.
  unfold trim.
  set (u := dropWhile isSpace s).
  destruct (dropWhile isSpace (rev u)) as [|c v] eqn:V; [exact I|].
  pose proof (dropWhile_head _ _ _ _ V) as Hc.
  destruct (dropWhile_split isSpace (rev u)) as (d & E & _).
  rewrite V in E. apply (f_equal (@rev _)) in E.
  rewrite rev_involutive, rev_app_distr in E.
  destruct (rev (c :: v)) as [|x r] eqn:R.
  { apply (f_equal (@length _)) in R. rewrite length_rev in R.
    discriminate. }
  unfold trimmed. split.
  - destruct u as [|y u'] eqn:U; [discriminate|].
    cbn [app] in E. injection E as -> _.
    apply (dropWhile_head isSpace s x u'). exact U.
  - rewrite <- R. cbn [rev]. rewrite last_last. exact Hc.
Qed.

Lemma free_app f a b : free f a -> free f b -> free f (a ++ b).
Proof. intros Fa Fb. apply Forall_app. split; assumption. Qed.

Lemma free_rev f s : free f s -> free f (rev s).
Proof. apply Forall_rev. Qed.

Lemma free_dropWhile f g s : free f s -> free f (dropWhile g s).
Proof.
  induction 1 as [|c s Hc Hs IH]; cbn [dropWhile]; [constructor|].
  destruct (g c); [exact IH | constructor; assumption].
Qed.

Lemma free_trim f s : free f s -> free f (trim s).
Proof.
  intros F. unfold trim.
  apply free_rev, free_dropWhile, free_rev, free_dropWhile, F.
Qed.

Lemma free_takeWhile f s : free f (takeWhile (fun c => negb (f c)) s).
Proof.
  induction s as [|c s IH]; cbn [takeWhile]; [constructor|].
  destruct (f c) eqn:F; cbn [negb]; constructor; assumption.
Qed.

(** Splitting at a one-unit separator. *)
Lemma split_go_free c : forall s cur,
  free (N.eqb c) s ->
  split_go [c] 0 cur s = [rev cur ++ s].
Proof.
  induction s as [|x s IH]; intros cur F; cbn [split_go].
  - rewrite app_nil_r. reflexivity.
  - inversion F as [|? ? Fx Fs]; subst.
    cbn [startsWith]. rewrite Fx. cbn [andb].
    rewrite IH by assumption. cbn [rev]. rewrite <- app_assoc. reflexivity.
Qed.

Lemma split_go_first c : forall a cur b,
  free (N.eqb c) a ->
  split_go [c] 0 cur (a ++ c :: b)
  = (rev cur ++ a) :: split_go [c] 0 [] b.
Proof.
  induction a as [|x a IH]; intros cur b F; cbn [app split_go].
  - cbn [startsWith]. rewrite N.eqb_refl. cbn [andb length Nat.sub].
    rewrite app_nil_r. reflexivity.
  - inversion F as [|? ? Fx Fa]; subst.
    cbn [startsWith]. rewrite Fx. cbn [andb].
    rewrite IH by assumption. cbn [rev]. rewrite <- app_assoc. reflexivity.
Qed.

Lemma split_go_pieces_free c : forall s cur piece,
  free (N.eqb c) cur ->
  In piece (split_go [c] 0 cur s) -> free (N.eqb c) piece.
Proof.
  induction s as [|x s IH]; intros cur piece F; cbn [split_go].
  - intros [<-|[]]. apply free_rev, F.
  - cbn [startsWith]. destruct (N.eqb c x) eqn:E; cbn [andb length Nat.sub].
    + intros [<-|I]; [apply free_rev, F|].
      apply (IH [] piece); [constructor | exact I].
    + apply IH. constructor; assumption.
Qed.

Lemma split_go_nonempty sep : forall s skip cur,
  split_go sep skip cur s <> [].
Proof.
  induction s as [|x s IH]; intros skip cur; cbn [split_go];
    [discriminate|].
  destruct skip; [|apply IH].
  destruct (startsWith sep (x :: s)); [discriminate | apply IH].
Qed.

End StringFacts.

(** ** The key check and the requests *)

Section KeyFacts.
Import GeminiService GeminiRequests Remote Notions.

Lemma getCleanKey_blank k :
  forallb isSpace k = true -> getCleanKey (Some k) = [].
Proof. apply trim_blank. Qed.

Lemma quota_is_retryable err :
  includes (toLowerCase (toString err)) (js "429")
  || includes (toLowerCase (toString err)) (js "quota") = true ->
  isRetryable err = true.
Proof.
  unfold isRetryable. cbv zeta. intros E.
  apply orb_true_iff in E. destruct E as [-> | ->];
    rewrite ?orb_true_r; reflexivity.
Qed.

Lemma keyError_not_retryable :
  isRetryable (newError (js "API_KEY_NOT_FOUND")) = false.
Proof. reflexivity. Qed.

Context {T W : Type}.

Lemma testKeyAccess_blank k (ping : @Thunk T W) w :
  forallb isSpace k = true ->
  testKeyAccess (Some k) ping w
  = ({| success := false; message := js "API Key Missing.";
        isQuota := None; details := None |}, w, []).
Proof.
  intros B. unfold testKeyAccess.
  rewrite (getCleanKey_blank k B). reflexivity.
Qed.

(** X3: with no key, or a key made of white space only, [testKeyAccess]
    reports "API Key Missing." without calling the remote operation;
    with any other key it calls it at least once. *)
Theorem testKeyAccess_missing_key :
  (forall (ping : @Thunk T W) w,
      testKeyAccess None ping w
      = ({| success := false; message := js "API Key Missing.";
            isQuota := None; details := None |}, w, []))
  /\
  (forall k (ping : @Thunk T W) w,
      forallb isSpace k = true ->
      testKeyAccess (Some k) ping w
      = ({| success := false; message := js "API Key Missing.";
            isQuota := None; details := None |}, w, []))
  /\
  (forall k (ping : @Thunk T W) w,
      forallb isSpace k = false ->
      (1 <= calls (snd (testKeyAccess (Some k) ping w)))%nat).
Proof.
  split; [|split].
  - reflexivity.
  - intros k ping w B. unfold testKeyAccess.
    rewrite (getCleanKey_blank k B). reflexivity.
  - intros k ping w B. unfold testKeyAccess.
    pose proof (trim_not_blank k B) as N.
    unfold getCleanKey. destruct (trim k) as [|c t]; [contradiction|].
    cbn [isEmpty].
    destruct (shape_by_budget ping 3 3 1000 w eq_refl)
      as (n & _ & Hc & _).
    unfold callWithRetry_default.
    destruct (callWithRetry ping 3 1000 w) as [[[v|err] w'] tr];
      cbn [snd] in *; lia.
Qed.

(** X4: a probe reports a quota failure only after the whole retry budget:
    when the result of [testKeyAccess] has [isQuota] true, the request was
    made four times, with waits of 1000, 2000 and 4000 ms, and the result
    is a failure with the message "Quota Alert". *)
Theorem testKeyAccess_quota_after_budget API_KEY (ping : @Thunk T W)
        w res w' tr :
  testKeyAccess API_KEY ping w = (res, w', tr) ->
  isQuota res = Some true ->
  success res = false
  /\ message res = js "Quota Alert"
  /\ calls tr = 4%nat
  /\ sleeps tr = [1000; 2000; 4000].
Proof.
  unfold testKeyAccess.
  destruct (isEmpty (getCleanKey API_KEY)).
  { intros E Q. injection E as <- _ _. discriminate. }
  unfold callWithRetry_default.
  destruct (callWithRetry ping 3 1000 w) as [[[v|err] w1] tr1] eqn:C.
  { intros E Q. injection E as <- _ _. discriminate. }
  cbv zeta. intros E Q. injection E as <- <- <-.
  cbn [isQuota] in Q. injection Q as Q.
  cbn [success message]. rewrite Q.
  destruct (spent_by_budget ping 3 3 1000 w err w1 tr1 eq_refl C
              (quota_is_retryable err Q)) as [Hc Hs].
  repeat split; assumption.
Qed.

End KeyFacts.

Section KeyExamples.
Import GeminiService GeminiRequests Remote Notions.

Lemma testKeyAccess_missing_key_witness :
  testKeyAccess (Some (js "  " ++ nl)) (failing 0 error429 tt) 0%nat
  = ({| success := false; message := js "API Key Missing.";
        isQuota := None; details := None |}, 0%nat, []).
Proof.
  exact (proj1 (proj2 testKeyAccess_missing_key)
           (js "  " ++ nl) (failing 0 error429 tt) 0%nat eq_refl).
Defined.

Lemma testKeyAccess_quota_after_budget_witness :
  success quotaProbe = false
  /\ message quotaProbe = js "Quota Alert"
  /\ calls (snd (testKeyAccess (Some (js "key"))
                   (failing 10 error429 tt) 0%nat)) = 4%nat
  /\ sleeps (snd (testKeyAccess (Some (js "key"))
                    (failing 10 error429 tt) 0%nat)) = [1000; 2000; 4000].
Proof.
  exact (testKeyAccess_quota_after_budget
           (Some (js "key")) (failing 10 error429 tt) 0%nat
           quotaProbe _ _ eq_refl eq_refl).
Defined.

End KeyExamples.

Section RequestFacts.
Import GeminiService GeminiRequests Remote Notions.
Context {W : Type}.
Variable generateContent : Request -> @Thunk Response W.
Variable typeError : JsError.

Lemma getClient_blank API_KEY :
  isEmpty (getCleanKey API_KEY) = true ->
  getClient API_KEY = inr (newError (js "API_KEY_NOT_FOUND")).
Proof. intros E. unfold getClient. cbv zeta. rewrite E. reflexivity. Qed.

Lemma getClient_present API_KEY :
  isEmpty (getCleanKey API_KEY) = false -> getClient API_KEY = inl tt.
Proof. intros E. unfold getClient. cbv zeta. rewrite E. reflexivity. Qed.

(** X5: without a usable key the three request functions fail with
    "API_KEY_NOT_FOUND" at their first attempt: the world is left as it
    was (no request is made), nothing is retried and nothing is waited
    for. *)
Theorem missing_key_fails_before_request API_KEY :
  isEmpty (getCleanKey API_KEY) = true ->
  (forall query w,
      deepScanInternet generateContent API_KEY query w
      = (inr (newError (js "API_KEY_NOT_FOUND")), w, [Call]))
  /\
  (forall prompt w,
      generateStudioImage generateContent typeError API_KEY prompt w
      = (inr (newError (js "API_KEY_NOT_FOUND")), w, [Call]))
  /\
  (forall image instruction w,
      refineImage generateContent typeError API_KEY image instruction w
      = (inr (newError (js "API_KEY_NOT_FOUND")), w, [Call])).
Proof.
  intros E. pose proof (getClient_blank API_KEY E) as G.
  split; [|split]; intros;
    unfold deepScanInternet, generateStudioImage, refineImage,
           callWithRetry_default;
    apply callWithRetry_reject;
    try (left; exact keyError_not_retryable);
    unfold scanAttempt, imageAttempt; rewrite G; reflexivity.
Qed.

Lemma emptyImage_not_retryable :
  isRetryable
    (newError (js "Image buffer empty. Safety filters may have engaged."))
  = false
  /\ isRetryable (newError (js "Refinement stream interrupted.")) = false.
Proof. split; reflexivity. Qed.

Lemma findInline_none ps :
  findInline ps = None <-> Forall (fun p => inlineData p = None) ps.
Proof.
  induction ps as [|p ps IH]; cbn [findInline].
  - split; [constructor | reflexivity].
  - destruct (inlineData p) eqn:E.
    + split; [discriminate|]. intros F. inversion F. congruence.
    + rewrite IH. split; [constructor; assumption|].
      intros F. inversion F. assumption.
Qed.

Lemma findInline_first ps : forall d,
  findInline ps = Some d ->
  exists before p after,
    ps = before ++ p :: after
    /\ Forall (fun q => inlineData q = None) before
    /\ inlineData p = Some d.
Proof.
  induction ps as [|p ps IH]; intros d; cbn [findInline]; [discriminate|].
  destruct (inlineData p) as [d0|] eqn:E.
  - intros F. injection F as <-. exists [], p, ps. auto.
  - intros F. destruct (IH d F) as (before & q & after & -> & B & Q).
    exists (p :: before), q, after. repeat split; auto.
Qed.

Lemma imageAttempt_result API_KEY request empty w0 r w' :
  imageAttempt generateContent typeError API_KEY request empty w0
  = (inl r, w') ->
  exists response d,
    generateContent request w0 = (inl response, w')
    /\ inlinePart response = Inline d
    /\ r = js "data:image/png;base64," ++ interpolate (data d).
Proof.
  unfold imageAttempt, imageOf.
  destruct (getClient API_KEY); [|discriminate].
  destruct (generateContent request w0) as [[response|e] w2];
    [|discriminate].
  destruct (inlinePart response) as [d| |] eqn:I; try discriminate.
  intros E. injection E as <- <-. exists response, d. auto.
Qed.

(** X6: a response with no inline image to find (no first candidate, a
    candidate without content, or parts none of which carries inline data)
    ends both image functions at once: the error "Image buffer empty..."
    or "Refinement stream interrupted." is returned after this one
    request, without a retry and without a wait.  A content without any
    list of parts makes [parts.find] throw instead, and that error is
    returned, also after this one request when its text carries none of
    the transient markers. *)
Theorem empty_image_is_not_retried API_KEY response :
  isEmpty (getCleanKey API_KEY) = false ->
  (inlinePart response = NoInline <->
   firstCandidate response = None
   \/ exists c,
        firstCandidate response = Some c
        /\ (content c = None
            \/ exists ps,
                 content c = Some {| parts := Some ps |}
                 /\ Forall (fun p => inlineData p = None) ps))
  /\
  (inlinePart response = NoInline ->
   (forall prompt w w',
       generateContent (imageRequest prompt) w = (inl response, w') ->
       generateStudioImage generateContent typeError API_KEY prompt w
       = (inr (newError
                 (js "Image buffer empty. Safety filters may have engaged.")),
          w', [Call]))
   /\
   (forall image instruction w w',
       generateContent (refineRequest image instruction) w
       = (inl response, w') ->
       refineImage generateContent typeError API_KEY image instruction w
       = (inr (newError (js "Refinement stream interrupted.")), w',
          [Call])))
  /\
  (inlinePart response = PartsMissing ->
   isRetryable typeError = false ->
   (forall prompt w w',
       generateContent (imageRequest prompt) w = (inl response, w') ->
       generateStudioImage generateContent typeError API_KEY prompt w
       = (inr typeError, w', [Call]))
   /\
   (forall image instruction w w',
       generateContent (refineRequest image instruction) w
       = (inl response, w') ->
       refineImage generateContent typeError API_KEY image instruction w
       = (inr typeError, w', [Call]))).
Proof.
  intros K. pose proof (getClient_present API_KEY K) as G.
  split; [|split].
  - unfold inlinePart.
    destruct (firstCandidate response) as [c|]; [|split; auto].
    destruct (content c) as [[[ps|]]|] eqn:C; cbn [parts].
    + destruct (findInline ps) as [d|] eqn:F.
      * split; [discriminate|].
        intros [N|(c' & E & H)]; [discriminate|].
        injection E as <-. rewrite C in H.
        destruct H as [N|(ps' & E' & A)]; [discriminate|].
        injection E' as <-.
        apply findInline_none in A. congruence.
      * split; [|reflexivity]. intros _. right. exists c.
        split; [reflexivity|]. right. exists ps.
        split; [exact C | apply findInline_none, F].
    + split; [discriminate|].
      intros [N|(c' & E & H)]; [discriminate|].
      injection E as <-. rewrite C in H.
      destruct H as [N|(ps' & E' & _)]; discriminate.
    + split; [|reflexivity]. intros _. right. exists c. auto.
  - intros N. split; intros;
      unfold generateStudioImage, refineImage, callWithRetry_default;
      apply callWithRetry_reject;
      try (left; apply emptyImage_not_retryable);
      unfold imageAttempt, imageOf;
      rewrite G;
      match goal with H : generateContent _ _ = _ |- _ => rewrite H end;
      rewrite N; reflexivity.
  - intros N R. split; intros;
      unfold generateStudioImage, refineImage, callWithRetry_default;
      apply callWithRetry_reject;
      try (left; exact R);
      unfold imageAttempt, imageOf;
      rewrite G;
      match goal with H : generateContent _ _ = _ |- _ => rewrite H end;
      rewrite N; reflexivity.
Qed.

(** X7: an image returned by [generateStudioImage] or [refineImage] comes
    from a response to the request of that function, and it is the prefix
    "data:image/png;base64," followed by the data of the first part of
    that response that carries inline data.  [refineImage], given such an
    image whose data holds no comma, puts exactly that data into the
    inline part of its request, with the instruction behind its fixed
    preamble as second part; given an image text without any comma it puts
    no data there. *)
Theorem image_data_round_trip :
  (forall API_KEY prompt w v w' tr,
      generateStudioImage generateContent typeError API_KEY prompt w
      = (inl v, w', tr) ->
      exists w0 response d,
        generateContent (imageRequest prompt) w0 = (inl response, w')
        /\ inlinePart response = Inline d
        /\ v = js "data:image/png;base64," ++ interpolate (data d))
  /\
  (forall API_KEY image instruction w v w' tr,
      refineImage generateContent typeError API_KEY image instruction w
      = (inl v, w', tr) ->
      exists w0 response d,
        generateContent (refineRequest image instruction) w0
        = (inl response, w')
        /\ inlinePart response = Inline d
        /\ v = js "data:image/png;base64," ++ interpolate (data d))
  /\
  (forall response d,
      inlinePart response = Inline d ->
      exists c before p after,
        firstCandidate response = Some c
        /\ content c = Some {| parts := Some (before ++ p :: after) |}
        /\ Forall (fun q => inlineData q = None) before
        /\ inlineData p = Some d)
  /\
  (forall d instruction,
      free isComma (interpolate (data d)) ->
      contents (refineRequest
                  (js "data:image/png;base64," ++ interpolate (data d))
                  instruction)
      = ContentsParts
          [ {| inlineData :=
                 Some {| data := Some (interpolate (data d));
                         mimeType := Some (js "image/png") |};
               partText := None |};
            {| inlineData := None;
               partText := Some (js "Refine lighting and details: "
                                 ++ instruction) |} ])
  /\
  (forall image instruction,
      free isComma image ->
      contents (refineRequest image instruction)
      = ContentsParts
          [ {| inlineData :=
                 Some {| data := None;
                         mimeType := Some (js "image/png") |};
               partText := None |};
            {| inlineData := None;
               partText := Some (js "Refine lighting and details: "
                                 ++ instruction) |} ]).
Proof.
  assert (R : forall API_KEY request empty retries delay w v w' tr,
             callWithRetry
               (imageAttempt generateContent typeError API_KEY request empty)
               retries delay w = (inl v, w', tr) ->
             exists w0 response d,
               generateContent request w0 = (inl response, w')
               /\ inlinePart response = Inline d
               /\ v = js "data:image/png;base64," ++ interpolate (data d)).
  { intros API_KEY request empty retries delay w v w' tr C.
    destruct (result_by_budget _ (Z.to_nat retries) _ _ _ _ _ _ eq_refl C)
      as (w0 & F).
    exists w0. apply (imageAttempt_result API_KEY request empty w0 v w' F). }
  assert (P : forall d,
             free isComma (interpolate (data d)) ->
             payloadOf (js "data:image/png;base64," ++ interpolate (data d))
             = Some (interpolate (data d))).
  { intros d F. unfold payloadOf, split.
    change (js "data:image/png;base64,")
      with (js "data:image/png;base64" ++ [44%N]).
    rewrite <- app_assoc. cbn [app].
    change (js ",") with [44%N].
    rewrite split_go_first by (repeat constructor).
    rewrite split_go_free by exact F. reflexivity. }
  split; [|split; [|split; [|split]]].
  - intros API_KEY prompt w v w' tr C.
    unfold generateStudioImage, callWithRetry_default in C.
    exact (R _ _ _ _ _ _ _ _ _ C).
  - intros API_KEY image instruction w v w' tr C.
    unfold refineImage, callWithRetry_default in C.
    exact (R _ _ _ _ _ _ _ _ _ C).
  - intros response d. unfold inlinePart.
    destruct (firstCandidate response) as [c|]; [|discriminate].
    destruct (content c) as [[[ps|]]|] eqn:C; cbn [parts];
      try discriminate.
    destruct (findInline ps) as [d0|] eqn:F; [|discriminate].
    intros E. injection E as ->.
    destruct (findInline_first ps d F) as (before & p & after & -> & B & Q).
    exists c, before, p, after. auto.
  - intros d instruction F. unfold refineRequest. cbn [contents].
    rewrite (P d F). reflexivity.
  - intros image instruction F. unfold refineRequest, payloadOf, split.
    cbn [contents]. change (js ",") with [44%N].
    rewrite split_go_free by exact F. reflexivity.
Qed.

Lemma pushSource_app acc c : pushSource acc c = acc ++ pushSource [] c.
Proof.
  unfold pushSource. destruct (web c);
    [reflexivity | symmetry; apply app_nil_r].
Qed.

Lemma fold_pushSource chunks : forall acc,
  fold_left pushSource chunks acc
  = acc ++ flat_map (pushSource []) chunks.
Proof.
  induction chunks as [|c chunks IH]; intros acc;
    cbn [fold_left flat_map].
  - symmetry. apply app_nil_r.
  - rewrite IH, (pushSource_app acc c). symmetry. apply app_assoc.
Qed.

Lemma orElse_nonempty x d : d <> [] -> orElse x d <> [].
Proof. intros D. destruct x as [[|c t]|]; cbn; try assumption. discriminate. Qed.

Lemma flat_pushSource chunks :
  flat_map (pushSource []) chunks = map sourceOf (webRefs chunks).
Proof.
  induction chunks as [|c chunks IH]; [reflexivity|].
  cbn [flat_map webRefs]. unfold webRefs in IH. rewrite map_app, <- IH.
  unfold pushSource. destruct (web c); reflexivity.
Qed.

Lemma scanAttempt_result API_KEY query w0 result w' :
  scanAttempt generateContent API_KEY query w0 = (inl result, w') ->
  exists response,
    generateContent (scanRequest query) w0 = (inl response, w')
    /\ prompts result = scanPrompts (text response)
    /\ sources result = scanSources response.
Proof.
  unfold scanAttempt.
  destruct (getClient API_KEY); [|discriminate].
  destruct (generateContent (scanRequest query) w0) as [[response|e] w2];
    [|discriminate].
  intros E. injection E as <- <-. exists response. auto.
Qed.

(** X8: for every response, the sources are made of the grounding chunks
    of its first candidate, one source for each chunk that carries a web
    reference, in the order of the chunks; a title or an address that is
    present and not empty is kept, an absent or empty one is replaced by
    "External Source" or "#", so that no source has an empty title or
    address.  What [deepScanInternet] returns are these sources, and the
    prompts parsed from the text, of a response to its request. *)
Theorem sources_are_complete :
  (forall response,
      scanSources response = map sourceOf (webRefs (chunksOf response)))
  /\
  (forall w,
      sourceTitle (sourceOf w) <> [] /\ uri (sourceOf w) <> []
      /\ (forall t, webTitle w = Some t -> t <> [] ->
                    sourceTitle (sourceOf w) = t)
      /\ (forall u, webUri w = Some u -> u <> [] -> uri (sourceOf w) = u)
      /\ (webTitle w = None \/ webTitle w = Some [] ->
          sourceTitle (sourceOf w) = js "External Source")
      /\ (webUri w = None \/ webUri w = Some [] ->
          uri (sourceOf w) = js "#"))
  /\
  (forall API_KEY query w result w' tr,
      deepScanInternet generateContent API_KEY query w
      = (inl result, w', tr) ->
      exists w0 response,
        generateContent (scanRequest query) w0 = (inl response, w')
        /\ prompts result = scanPrompts (text response)
        /\ sources result = scanSources response).
Proof.
  split; [|split].
  - intros response. unfold scanSources, chunksOf. cbv zeta.
    destruct (firstCandidate response) as [c|]; [|reflexivity].
    destruct (groundingMetadata c) as [m|]; [|reflexivity].
    destruct (groundingChunks m) as [chunks|]; [|reflexivity].
    rewrite fold_pushSource. apply flat_pushSource.
  - intros w. unfold sourceOf. cbn [sourceTitle uri].
    split; [apply orElse_nonempty; discriminate|].
    split; [apply orElse_nonempty; discriminate|].
    split; [intros t -> N; destruct t; [contradiction | reflexivity]|].
    split; [intros u -> N; destruct u; [contradiction | reflexivity]|].
    split; intros [-> | ->]; reflexivity.
  - intros API_KEY query w result w' tr C.
    unfold deepScanInternet, callWithRetry_default in C.
    destruct (result_by_budget _ (Z.to_nat 3) _ _ _ _ _ _ eq_refl C)
      as (w0 & F).
    exists w0. apply (scanAttempt_result API_KEY query w0 result w' F).
Qed.

End RequestFacts.

Section RequestExamples.
Import GeminiService GeminiRequests Remote Notions.

Lemma missing_key_fails_before_request_witness :
  deepScanInternet (answering emptyResponse) None (js "castle") 0%nat
  = (inr (newError (js "API_KEY_NOT_FOUND")), 0%nat, [Call]).
Proof.
  exact (proj1 (missing_key_fails_before_request
                  (answering emptyResponse) findTypeError None eq_refl)
           (js "castle") 0%nat).
Defined.

Lemma empty_image_is_not_retried_witness :
  generateStudioImage (answering emptyResponse) findTypeError
                      (Some (js "key")) (js "castle") 0%nat
  = (inr (newError
            (js "Image buffer empty. Safety filters may have engaged.")),
     1%nat, [Call]).
Proof.
  exact (proj1 (proj1 (proj2 (empty_image_is_not_retried
                                (answering emptyResponse) findTypeError
                                (Some (js "key")) emptyResponse eq_refl))
                  eq_refl)
           (js "castle") 0%nat 1%nat eq_refl).
Defined.

(** With V8's text for the TypeError, a content without parts ends the
    call after one request as well. *)
Example parts_missing_is_not_retried :
  generateStudioImage (answering noPartsResponse) findTypeError
                      (Some (js "key")) (js "castle") 0%nat
  = (inr findTypeError, 1%nat, [Call]).
Proof. reflexivity. Qed.

Lemma image_data_round_trip_witness :
  exists w0 response d,
    answering imageResponse (imageRequest (js "castle")) w0
    = (inl response, 1%nat)
    /\ inlinePart response = Inline d
    /\ js "data:image/png;base64,iVBORw0KGgo="
       = js "data:image/png;base64," ++ interpolate (data d).
Proof.
  exact (proj1 (image_data_round_trip (answering imageResponse)
                                      findTypeError)
           (Some (js "key")) (js "castle") 0%nat
           (js "data:image/png;base64,iVBORw0KGgo=") 1%nat [Call]
           eq_refl).
Defined.

Lemma sources_are_complete_witness :
  exists w0 response,
    answering groundedResponse (scanRequest (js "fox")) w0
    = (inl response, 1%nat)
    /\ prompts {| prompts := scanPrompts (Some (js "PROMPT: a fox"));
                  sources := scanSources groundedResponse |}
       = scanPrompts (text response)
    /\ sources {| prompts := scanPrompts (Some (js "PROMPT: a fox"));
                  sources := scanSources groundedResponse |}
       = scanSources response.
Proof.
  exact (proj2 (proj2 (sources_are_complete (answering groundedResponse)))
           (Some (js "key")) (js "fox") 0%nat
           {| prompts := scanPrompts (Some (js "PROMPT: a fox"));
              sources := scanSources groundedResponse |}
           1%nat [Call] eq_refl).
Defined.

(** The sources of that response: the chunk without a web reference gives
    none, the two others keep what they carry and get the placeholders for
    the rest. *)
Example sources_of_groundedResponse :
  scanSources groundedResponse
  = [ {| sourceTitle := js "Fox art"; uri := js "#" |};
      {| sourceTitle := js "External Source";
         uri := js "https://a.example/x" |} ].
Proof. reflexivity. Qed.

End RequestExamples.

(** ** The parsed prompts *)

Section PromptFields.
Import GeminiService GeminiRequests Remote Notions.

Lemma matchField_free key : forall s c,
  matchField key s = Some c -> free isLineTerminator c.
Proof.
  induction s as [|x s IH]; intros c; cbn [matchField];
    destruct (matchesHere key _);
    try discriminate;
    try (intros E; injection E as <-; apply free_takeWhile).
  apply IH.
Qed.

(** The pieces of a split are made of code units of the text. *)
Lemma split_go_pieces_of f sep : forall s skip cur piece,
  free f cur -> free f s ->
  In piece (split_go sep skip cur s) -> free f piece.
Proof.
  induction s as [|x s IH]; intros skip cur piece Fc Fs; cbn [split_go].
  - intros [<-|[]]. apply free_rev, Fc.
  - inversion Fs as [|? ? Fx Fs']; subst.
    destruct skip as [|k]; [|apply IH; assumption].
    destruct (startsWith sep (x :: s)).
    + intros [<-|I]; [apply free_rev, Fc|].
      apply (IH (length sep - 1)%nat [] piece);
        [constructor | assumption | exact I].
    + apply IH; [constructor|]; assumption.
Qed.

Lemma tags_clean g :
  free isLineTerminator g ->
  map trim (split (js ",") g) <> []
  /\ Forall (fun t => trimmed t /\ free isComma t
                      /\ free isLineTerminator t)
            (map trim (split (js ",") g)).
Proof.
  intros Fg. split.
  - intros E. apply map_eq_nil in E. revert E. apply split_go_nonempty.
  - apply Forall_forall. intros t I. apply in_map_iff in I.
    destruct I as (piece & <- & I). split; [apply trim_trimmed|].
    split; apply free_trim.
    + apply (split_go_pieces_free 44%N g [] piece); [constructor|exact I].
    + apply (split_go_pieces_of isLineTerminator (js ",") g 0 [] piece);
        [constructor | exact Fg | exact I].
Qed.

Lemma scanPrompts_from_section text r :
  In r (scanPrompts text) ->
  exists section, In r (scanSection [] section).
Proof.
  unfold scanPrompts. cbv zeta. rewrite fold_scanSection. cbn [app].
  intros I. apply in_flat_map in I. destruct I as (section & _ & I).
  eauto.
Qed.

(** X10: every prompt record that [deepScanInternet] builds has the source
    "Global Crawl", a title and a prompt that hold no line break and
    neither start nor end with white space, and at least one tag; the tags
    hold no comma and no line break and are trimmed too. *)
Theorem prompt_records_are_clean text r :
  In r (scanPrompts text) ->
  source r = js "Global Crawl"
  /\ trimmed (title r) /\ free isLineTerminator (title r)
  /\ trimmed (prompt r) /\ free isLineTerminator (prompt r)
  /\ exists ts,
       tags r = Some ts /\ ts <> []
       /\ Forall (fun t => trimmed t /\ free isComma t
                           /\ free isLineTerminator t) ts.
Proof.
  intros I. destruct (scanPrompts_from_section text r I) as (section & S).
  unfold scanSection in S.
  destruct (matchField (js "PROMPT:") section) as [p|] eqn:P; [|destruct S].
  cbn [app] in S. destruct S as [<-|[]].
  cbn [source title prompt tags].
  split; [reflexivity|].
  assert (Ht : trimmed
                 match matchField (js "TITLE:") section with
                 | Some t => trim t
                 | None => js "Style Trace"
                 end
               /\ free isLineTerminator
                    match matchField (js "TITLE:") section with
                    | Some t => trim t
                    | None => js "Style Trace"
                    end).
  { destruct (matchField (js "TITLE:") section) as [t|] eqn:T.
    - split; [apply trim_trimmed|].
      apply free_trim, (matchField_free _ _ _ T).
    - split; [cbn; auto | repeat constructor]. }
  destruct Ht as [Ht1 Ht2].
  split; [exact Ht1|]. split; [exact Ht2|].
  split; [apply trim_trimmed|].
  split; [apply free_trim, (matchField_free _ _ _ P)|].
  eexists. split; [reflexivity|].
  destruct (matchField (js "TAGS:") section) as [g|] eqn:G.
  - apply tags_clean, (matchField_free _ _ _ G).
  - split; [discriminate|].
    constructor; [|constructor].
    split; [cbn; auto|]. split; repeat constructor.
Qed.

Lemma startsWith_app p : forall s b,
  startsWith p s = true -> startsWith p (s ++ b) = true.
Proof.
  induction p as [|x p IH]; intros [|y s] b; cbn; try congruence.
  intros E. apply andb_true_iff in E. destruct E as [-> E]. cbn. auto.
Qed.

Lemma includes_app_r s p b :
  includes s p = true -> includes (s ++ b) p = true.
Proof.
  induction s as [|y s IH]; cbn [includes app].
  - rewrite orb_false_r. intros E.
    destruct p; [|discriminate]. destruct b; reflexivity.
  - intros E. apply orb_true_iff in E. apply orb_true_iff.
    destruct E as [E|E]; [left|right; auto].
    apply (startsWith_app p (y :: s) b E).
Qed.

Lemma includes_app_l a s p :
  includes s p = true -> includes (a ++ s) p = true.
Proof.
  induction a as [|y a IH]; intros E; [exact E|].
  cbn [app includes]. rewrite (IH E). apply orb_true_r.
Qed.

Lemma split_go_infix sep : forall s skip cur piece,
  skip = O \/ cur = [] ->
  In piece (split_go sep skip cur s) ->
  exists a b, rev cur ++ s = a ++ piece ++ b.
Proof.
  induction s as [|x s IH]; intros skip cur piece H; cbn [split_go].
  - intros [<-|[]]. exists [], []. rewrite !app_nil_r. reflexivity.
  - destruct skip as [|k].
    + destruct (startsWith sep (x :: s)).
      * intros [<-|I]; [exists [], (x :: s); reflexivity|].
        destruct (IH _ [] piece (or_intror eq_refl) I) as (a & b & E).
        cbn [rev app] in E. exists (rev cur ++ x :: a), b.
        rewrite E, <- app_assoc. reflexivity.
      * intros I.
        destruct (IH _ (x :: cur) piece (or_introl eq_refl) I)
          as (a & b & E).
        exists a, b. rewrite <- E. cbn [rev]. rewrite <- app_assoc.
        reflexivity.
    + destruct H as [H | ->]; [discriminate|]. intros I.
      destruct (IH _ [] piece (or_intror eq_refl) I) as (a & b & E).
      cbn [rev app] in E. exists (x :: a), b. cbn [rev app].
      rewrite E. reflexivity.
Qed.

Lemma piece_includes sep s piece p :
  In piece (split sep s) -> includes piece p = true ->
  includes s p = true.
Proof.
  intros I E.
  destruct (split_go_infix sep s 0 [] piece (or_introl eq_refl) I)
    as (a & b & S).
  cbn [rev app] in S. rewrite S.
  apply includes_app_l, includes_app_r, E.
Qed.

(** X11: a response text that nowhere holds the label "PROMPT:" in
    capitals gives no prompt at all, and so does a response without
    text. *)
Theorem no_label_no_prompts :
  (forall text,
      includes text (js "PROMPT:") = false ->
      scanPrompts (Some text) = [])
  /\ scanPrompts None = []
  /\ scanPrompts (Some []) = [].
Proof.
  split; [|split; reflexivity].
  intros text N. unfold scanPrompts, sectionsOf.
  rewrite filter_none; [reflexivity|].
  intros piece I.
  destruct (includes piece (js "PROMPT:")) eqn:E; [|reflexivity].
  rewrite (piece_includes _ _ _ _ I E) in N. discriminate.
Qed.

Lemma no_label_no_prompts_witness :
  scanPrompts (Some (js "Title: Fox --- Prompt: a red fox, tags: fox")) = [].
Proof.
  exact (proj1 no_label_no_prompts
           (js "Title: Fox --- Prompt: a red fox, tags: fox") eq_refl).
Defined.

Lemma prompt_records_are_clean_witness :
  source (nth 0 (scanPrompts (Some response2))
                {| title := []; prompt := []; source := []; tags := None |})
  = js "Global Crawl".
Proof.
  refine (proj1 (prompt_records_are_clean (Some response2) _ _)).
  left. reflexivity.
Defined.

End PromptFields.

(** ** The history engine: commits, resets and the buttons *)

Section HistoryMore.
Import ImageEditor History Notions.

Lemma sameJSON_refl a : sameJSON a a = true.
Proof. apply sameJSON_eq. reflexivity. Qed.

Lemma handleAdjustmentEnd_fixed s : settled s -> handleAdjustmentEnd s = s.
Proof.
  unfold settled, handleAdjustmentEnd. intros ->.
  rewrite sameJSON_refl. reflexivity.
Qed.

(** X12: a commit directly after a commit changes nothing, and neither
    does a commit while the working vector is the entry at the position:
    the log only grows by vectors that differ from the current entry. *)
Theorem commit_is_idempotent :
  (forall s, handleAdjustmentEnd (handleAdjustmentEnd s)
             = handleAdjustmentEnd s)
  /\
  (forall s, settled s -> handleAdjustmentEnd s = s).
Proof.
  split.
  - intros s. apply handleAdjustmentEnd_fixed, handleAdjustmentEnd_settled.
  - exact handleAdjustmentEnd_fixed.
Qed.

Lemma commit_is_idempotent_witness :
  handleAdjustmentEnd initialState = initialState.
Proof. exact (proj2 commit_is_idempotent initialState eq_refl). Defined.

Lemma at_index_app1 {A} (l m : list A) (i : Z) :
  i < len l -> at_index (l ++ m) i = at_index l i.
Proof.
  intros Hi. unfold at_index, len in *.
  destruct (i <? 0) eqn:E; [reflexivity|]. apply Z.ltb_ge in E.
  apply nth_error_app1. lia.
Qed.

Lemma at_index_upTo s i :
  0 <= i <= historyIndex s ->
  at_index (upToPosition s) i = at_index (history s) i.
Proof.
  intros Hi. unfold at_index, upToPosition.
  destruct (i <? 0) eqn:E; [reflexivity|].
  rewrite nth_error_firstn.
  destruct (Z.to_nat i <? Z.to_nat (historyIndex s) + 1)%nat eqn:L;
    [reflexivity|].
  apply Nat.ltb_ge in L. lia.
Qed.

(** The entry below the one [pushToHistory] appends is the entry that was
    at the position. *)
Lemma pushToHistory_previous v s h :
  valid s ->
  at_index (history s) (historyIndex s) = Some h ->
  historyIndex (pushToHistory v s) > 0
  /\ at_index (history (pushToHistory v s))
              (historyIndex (pushToHistory v s) - 1) = Some h.
Proof.
  intros V Hh. pose proof (len_upTo s V) as L.
  pose proof (pushToHistory_history v s V) as Hist.
  destruct (pushToHistory_position v s) as [Hp _].
  destruct V as [Hl Hi]. rewrite Hp, Hist.
  assert (U : at_index (upToPosition s ++ [v]) (historyIndex s) = Some h).
  { rewrite at_index_app1 by lia. rewrite at_index_upTo by lia. exact Hh. }
  destruct (historyIndex s + 2 >? 25) eqn:E.
  - apply Z.gtb_lt in E.
    rewrite len_shift by (rewrite len_app1; lia). rewrite len_app1.
    split; [lia|].
    rewrite at_index_shift by lia.
    replace (len (upToPosition s) + 1 - 1 - 1 - 1 + 1)
      with (historyIndex s) by lia.
    exact U.
  - rewrite Z.gtb_ltb in E. apply Z.ltb_ge in E. rewrite len_app1.
    split; [lia|].
    replace (len (upToPosition s) + 1 - 1 - 1) with (historyIndex s) by lia.
    exact U.
Qed.

Lemma undo_pushToHistory v s h :
  valid s ->
  at_index (history s) (historyIndex s) = Some h ->
  exists s', undo (pushToHistory v s) = Some s'
             /\ adjustments s' = h
             /\ history s' = history (pushToHistory v s).
Proof.
  intros V Hh.
  destruct (pushToHistory_previous v s h V Hh) as [P A].
  unfold undo.
  assert (G : (historyIndex (pushToHistory v s) >? 0) = true)
    by (apply Z.gtb_lt; lia).
  rewrite G, A. eexists. split; [reflexivity|]. split; reflexivity.
Qed.

(** X13: a commit that appended, and every reset, can be taken back: the
    undo that follows loads the entry that was at the position before,
    also when the append dropped the oldest entry. *)
Theorem undo_takes_back_commit_and_reset s h :
  valid s ->
  at_index (history s) (historyIndex s) = Some h ->
  (adjustments s <> h ->
   exists s', undo (handleAdjustmentEnd s) = Some s'
              /\ adjustments s' = h
              /\ history s' = history (handleAdjustmentEnd s))
  /\
  (exists s', undo (handleReset s) = Some s'
              /\ adjustments s' = h
              /\ history s' = history (handleReset s)).
Proof.
  intros V Hh. split.
  - intros Hne.
    assert (E : handleAdjustmentEnd s = pushToHistory (adjustments s) s).
    { unfold handleAdjustmentEnd. rewrite Hh.
      destruct (sameJSON (adjustments s) h) eqn:J; [|reflexivity].
      apply sameJSON_eq in J. contradiction. }
    rewrite E. apply undo_pushToHistory; assumption.
  - unfold handleReset.
    apply (undo_pushToHistory DEFAULT_ADJUSTMENTS
             (setAdjustments DEFAULT_ADJUSTMENTS s) h); assumption.
Qed.

Lemma undo_takes_back_commit_and_reset_witness :
  exists s', undo (handleReset initialState) = Some s'
             /\ adjustments s' = DEFAULT_ADJUSTMENTS
             /\ history s' = [DEFAULT_ADJUSTMENTS; DEFAULT_ADJUSTMENTS].
Proof.
  assert (V : valid initialState)
    by (unfold valid; vm_compute; split; [|split]; discriminate).
  exact (proj2 (undo_takes_back_commit_and_reset
                  initialState DEFAULT_ADJUSTMENTS V eq_refl)).
Defined.

(** *** Neighbouring entries *)

Lemma adjacentDistinct_tl l : adjacentDistinct l -> adjacentDistinct (tl l).
Proof.
  destruct l as [|a [|b l]]; cbn; try tauto.
Qed.

Lemma adjacentDistinct_firstn n : forall l,
  adjacentDistinct l -> adjacentDistinct (firstn n l).
Proof.
  induction n as [|n IH]; intros [|a l] D; cbn [firstn]; try exact I.
  specialize (IH l). destruct l as [|b l]; [destruct n; exact I|].
  destruct D as [Hab D]. specialize (IH D).
  destruct n as [|n]; [exact I|].
  cbn [firstn] in *. split; assumption.
Qed.

Lemma adjacentDistinct_snoc l : forall h v,
  adjacentDistinct (l ++ [h]) -> h <> v ->
  adjacentDistinct (l ++ [h; v]).
Proof.
  induction l as [|a l IH]; intros h v D Hne.
  - cbn. auto.
  - destruct l as [|b l].
    + cbn in *. destruct D as [Hah _]. auto.
    + cbn [app adjacentDistinct] in *. destruct D as [Hab D].
      split; [exact Hab|]. apply (IH h v D Hne).
Qed.

Lemma upTo_last s h :
  valid s ->
  at_index (history s) (historyIndex s) = Some h ->
  upToPosition s
  = firstn (Z.to_nat (historyIndex s)) (history s) ++ [h].
Proof.
  intros [_ Hi] Hh. unfold upToPosition, at_index in *.
  destruct (historyIndex s <? 0) eqn:E; [discriminate|].
  revert Hh. generalize (Z.to_nat (historyIndex s)) as n.
  generalize (history s) as l. clear.
  induction l as [|a l IH]; intros [|n]; cbn; try discriminate.
  - intros E. injection E as ->. destruct l; reflexivity.
  - intros E. rewrite <- (IH n E).
    replace (n + 1)%nat with (S n) by lia. reflexivity.
Qed.

Lemma pushToHistory_adjacentDistinct v s h :
  valid s ->
  at_index (history s) (historyIndex s) = Some h ->
  h <> v ->
  adjacentDistinct (history s) ->
  adjacentDistinct (history (pushToHistory v s)).
Proof.
  intros V Hh Hne D.
  rewrite (pushToHistory_history v s V).
  assert (A : adjacentDistinct (upToPosition s ++ [v])).
  { rewrite (upTo_last s h V Hh), <- app_assoc. cbn [app].
    apply adjacentDistinct_snoc; [|exact Hne].
    rewrite <- (upTo_last s h V Hh).
    apply adjacentDistinct_firstn, D. }
  destruct (historyIndex s + 2 >? 25);
    [apply adjacentDistinct_tl|]; exact A.
Qed.

Lemma undo_history s s' : undo s = Some s' -> history s' = history s.
Proof.
  unfold undo. destruct (historyIndex s >? 0).
  - destruct (at_index _ _); [|discriminate].
    intros E. injection E as <-. reflexivity.
  - intros E. injection E as <-. reflexivity.
Qed.

Lemma redo_history s s' : redo s = Some s' -> history s' = history s.
Proof.
  unfold redo. destruct (historyIndex s <? len (history s) - 1).
  - destruct (at_index _ _); [|discriminate].
    intros E. injection E as <-. reflexivity.
  - intros E. injection E as <-. reflexivity.
Qed.

Lemma step_adjacentDistinct o s s' :
  isReset o = false ->
  valid s -> adjacentDistinct (history s) ->
  step o s = Some s' -> adjacentDistinct (history s').
Proof.
  intros R V D. destruct o; cbn [step]; try discriminate.
  - intros E. injection E as <-. exact D.
  - intros E. injection E as <-. unfold handleAdjustmentEnd.
    destruct (at_index_some (history s) (historyIndex s)) as [h Hh];
      [apply V|].
    rewrite Hh. destruct (sameJSON (adjustments s) h) eqn:J;
      cbn [negb]; [exact D|].
    apply (pushToHistory_adjacentDistinct _ s h); try assumption.
    intros Eq. rewrite <- Eq, sameJSON_refl in J. discriminate.
  - intros E. rewrite (undo_history s s' E). exact D.
  - intros E. rewrite (redo_history s s' E). exact D.
Qed.

Lemma run_adjacentDistinct ops : forall s,
  noReset ops = true ->
  valid s -> adjacentDistinct (history s) ->
  exists s', run ops s = Some s' /\ adjacentDistinct (history s').
Proof.
  induction ops as [|o ops IH]; intros s N V D.
  - exists s. auto.
  - cbn [noReset forallb] in N. apply andb_true_iff in N.
    destruct N as [No N]. apply negb_true_iff in No.
    destruct (step_valid o s V) as (s1 & E & V1).
    cbn [run]. rewrite E.
    apply IH; [exact N | exact V1 |].
    apply (step_adjacentDistinct o s s1 No V D E).
Qed.

Lemma adjacentDistinct_at l : forall n a b,
  adjacentDistinct l ->
  nth_error l n = Some a -> nth_error l (S n) = Some b -> a <> b.
Proof.
  induction l as [|x l IH]; intros [|n] a b D; cbn [nth_error];
    try discriminate.
  - destruct l as [|y l]; [discriminate|]. cbn [nth_error].
    intros Ea Eb. injection Ea as <-. injection Eb as <-. apply D.
  - apply IH. destruct l; [exact I | apply D].
Qed.

(** X14: as long as no reset is used, no two neighbouring entries of the
    log are equal, so an undo that moves the position from a committed
    state changes the working vector; a reset does append an equal
    entry. *)
Theorem neighbours_differ_without_reset :
  (forall ops,
      noReset ops = true ->
      exists s, run ops initialState = Some s
                /\ adjacentDistinct (history s))
  /\
  (forall s,
      valid s -> settled s -> adjacentDistinct (history s) ->
      historyIndex s > 0 ->
      exists s', undo s = Some s' /\ adjustments s' <> adjustments s)
  /\
  run [Reset] initialState
  = Some {| adjustments := DEFAULT_ADJUSTMENTS;
            history := [DEFAULT_ADJUSTMENTS; DEFAULT_ADJUSTMENTS];
            historyIndex := 1 |}.
Proof.
  split; [|split; [|reflexivity]].
  - intros ops N.
    apply run_adjacentDistinct; [exact N | exact initialState_valid |].
    exact I.
  - intros s [Hl Hi] St D P. unfold undo.
    assert (G : (historyIndex s >? 0) = true) by (apply Z.gtb_lt; lia).
    rewrite G.
    destruct (at_index_some (history s) (historyIndex s - 1)) as [a Ha];
      [lia|].
    rewrite Ha. eexists. split; [reflexivity|]. cbn [adjustments].
    unfold settled, at_index in *.
    destruct (historyIndex s <? 0) eqn:E1; [discriminate|].
    destruct (historyIndex s - 1 <? 0) eqn:E2; [discriminate|].
    apply (adjacentDistinct_at (history s)
             (Z.to_nat (historyIndex s - 1)) a (adjustments s) D Ha).
    replace (S (Z.to_nat (historyIndex s - 1)))
      with (Z.to_nat (historyIndex s)) by lia.
    exact St.
Qed.

Lemma neighbours_differ_without_reset_witness :
  exists s,
    run [SetChannel Hue 10; Commit; Commit; SetChannel Hue 10; Commit;
         Undo; SetChannel Hue 20; Commit] initialState = Some s
    /\ adjacentDistinct (history s).
Proof.
  exact (proj1 neighbours_differ_without_reset
           [SetChannel Hue 10; Commit; Commit; SetChannel Hue 10; Commit;
            Undo; SetChannel Hue 20; Commit] eq_refl).
Defined.

(** X15: the undo and redo buttons are disabled exactly when the handler
    behind them would do nothing: from a state whose position indexes an
    entry, a disabled button's handler leaves the state as it is and an
    enabled one moves the position by one. *)
Theorem buttons_match_handlers s :
  valid s ->
  (undoDisabled s = true -> undo s = Some s)
  /\ (undoDisabled s = false ->
      exists s', undo s = Some s'
                 /\ historyIndex s' = historyIndex s - 1)
  /\ (redoDisabled s = true -> redo s = Some s)
  /\ (redoDisabled s = false ->
      exists s', redo s = Some s'
                 /\ historyIndex s' = historyIndex s + 1).
Proof.
  intros [Hl Hi]. unfold undoDisabled, redoDisabled, undo, redo.
  repeat split.
  - intros E. apply Z.eqb_eq in E. rewrite E. reflexivity.
  - intros E. apply Z.eqb_neq in E.
    assert (G : (historyIndex s >? 0) = true) by (apply Z.gtb_lt; lia).
    rewrite G.
    destruct (at_index_some (history s) (historyIndex s - 1)) as [a ->];
      [lia|].
    eexists. split; reflexivity.
  - intros E. rewrite Z.geb_leb in E. apply Z.leb_le in E.
    assert (G : (historyIndex s <? len (history s) - 1) = false)
      by (apply Z.ltb_ge; lia).
    rewrite G. reflexivity.
  - intros E. rewrite Z.geb_leb in E. apply Z.leb_gt in E.
    assert (G : (historyIndex s <? len (history s) - 1) = true)
      by (apply Z.ltb_lt; lia).
    rewrite G.
    destruct (at_index_some (history s) (historyIndex s + 1)) as [a ->];
      [lia|].
    eexists. split; reflexivity.
Qed.

Lemma buttons_match_handlers_witness :
  undo initialState = Some initialState.
Proof.
  assert (V : valid initialState)
    by (unfold valid; vm_compute; split; [|split]; discriminate).
  exact (proj1 (buttons_match_handlers initialState V) eq_refl).
Defined.

(** X16: on a state whose working vector is the entry at the position,
    undo and redo are inverse to each other: a redo that moves followed by
    an undo, and an undo that moves followed by a redo, give back the very
    same state. *)
Theorem undo_redo_are_inverse s :
  valid s -> settled s ->
  (historyIndex s < len (history s) - 1 ->
   exists s1, redo s = Some s1 /\ undo s1 = Some s)
  /\
  (historyIndex s > 0 ->
   exists s1, undo s = Some s1 /\ redo s1 = Some s).
Proof.
  intros [Hl Hi] S. unfold settled in S. destruct s as [a h i].
  cbn [history historyIndex adjustments] in *.
  split; intros P; unfold undo, redo; cbn [history historyIndex].
  - assert (G : (i <? len h - 1) = true) by (apply Z.ltb_lt; lia).
    rewrite G.
    destruct (at_index_some h (i + 1)) as [b ->]; [lia|].
    eexists. split; [reflexivity|]. cbn [history historyIndex].
    assert (G' : (i + 1 >? 0) = true) by (apply Z.gtb_lt; lia).
    rewrite G'. replace (i + 1 - 1) with i by lia. rewrite S. reflexivity.
  - assert (G : (i >? 0) = true) by (apply Z.gtb_lt; lia).
    rewrite G.
    destruct (at_index_some h (i - 1)) as [b ->]; [lia|].
    eexists. split; [reflexivity|]. cbn [history historyIndex].
    assert (G' : (i - 1 <? len h - 1) = true) by (apply Z.ltb_lt; lia).
    rewrite G'. replace (i - 1 + 1) with i by lia. rewrite S. reflexivity.
Qed.

Lemma undo_redo_are_inverse_witness :
  exists s1,
    redo {| adjustments := DEFAULT_ADJUSTMENTS;
            history := [DEFAULT_ADJUSTMENTS;
                        update DEFAULT_ADJUSTMENTS Hue 10];
            historyIndex := 0 |} = Some s1
    /\ undo s1 = Some {| adjustments := DEFAULT_ADJUSTMENTS;
                         history := [DEFAULT_ADJUSTMENTS;
                                     update DEFAULT_ADJUSTMENTS Hue 10];
                         historyIndex := 0 |}.
Proof.
  assert (V : valid {| adjustments := DEFAULT_ADJUSTMENTS;
                       history := [DEFAULT_ADJUSTMENTS;
                                   update DEFAULT_ADJUSTMENTS Hue 10];
                       historyIndex := 0 |})
    by (unfold valid; vm_compute; split; [|split]; discriminate).
  exact (proj1 (undo_redo_are_inverse _ V eq_refl) eq_refl).
Defined.

End HistoryMore.

(** ** Connection health: the cooldown *)

Section CooldownFacts.
Import GeminiService Remote App Notions.

Lemma cooldownEffect_steady s :
  0 <= cooldown s <= 30 -> connection s <> Offline ->
  steady (cooldownEffect s).
Proof.
  intros B O. unfold steady, cooldownEffect.
  destruct (cooldown s >? 0) eqn:G;
    cbn [cooldown ticking connection].
  - rewrite G. apply Z.gtb_lt in G. repeat split; try lia; auto.
  - destruct (connection s) eqn:C; cbn [cooldown ticking connection];
      rewrite G; repeat split; try lia; try discriminate; congruence.
Qed.

Lemma step_steady e s : steady s -> steady (step e s).
Proof.
  intros (B & Tk & Th & O). unfold step. apply cooldownEffect_steady.
  - destruct e as [|res|err|]; cbn [handler].
    + exact B.
    + unfold checkHealth_end. destruct (success res); exact B.
    + unfold handleSearch_catch. cbv zeta.
      destruct (_ || _); cbn [cooldown]; [lia | exact B].
    + unfold tick. rewrite Tk.
      destruct (cooldown s >? 0) eqn:G; cbn [cooldown]; [|exact B].
      apply Z.gtb_lt in G. lia.
  - destruct e as [|res|err|]; cbn [handler].
    + discriminate.
    + unfold checkHealth_end. destruct (success res); [discriminate|].
      cbv zeta. destruct (match isQuota res with Some b => b | None => false end);
        discriminate.
    + unfold handleSearch_catch. cbv zeta.
      destruct (_ || _); exact O.
    + unfold tick. destruct (ticking s); exact O.
Qed.

(** X17: after every sequence of probe, search-failure and tick events
    from the start, the cooldown counter is between 0 and 30, the
    one-second interval is installed exactly while it is positive, the
    state is throttled only while it is positive, and the state is never
    offline. *)
Theorem cooldown_stays_in_bounds (es : list Event) :
  0 <= cooldown (run es initialState) <= 30
  /\ ticking (run es initialState) = (cooldown (run es initialState) >? 0)
  /\ (connection (run es initialState) = Throttled ->
      cooldown (run es initialState) > 0)
  /\ connection (run es initialState) <> Offline.
Proof.
  change (steady (run es initialState)).
  assert (S0 : steady initialState).
  { unfold steady. cbn. repeat split; try lia; discriminate. }
  revert S0. generalize initialState as s.
  induction es as [|e es IH]; intros s S0; [exact S0|].
  apply (IH (step e s)), step_steady, S0.
Qed.

Lemma searchFailed_quota err s :
  includes (toLowerCase (toString err)) (js "429")
  || includes (toLowerCase (toString err)) (js "quota") = true ->
  cooldown (step (SearchFailed err) s) = 30
  /\ ticking (step (SearchFailed err) s) = true.
Proof.
  intros Q. unfold step, handler, handleSearch_catch. cbv zeta.
  rewrite Q. split; reflexivity.
Qed.

(** X18: after a discovery call has failed on quota, a new search is
    refused, whatever the query, until thirty ticks have passed; the
    thirtieth tick brings the counter to 0 and removes the interval, and a
    search with a query that is not blank is accepted again. *)
Theorem search_refused_for_thirty_ticks err s :
  includes (toLowerCase (toString err)) (js "429")
  || includes (toLowerCase (toString err)) (js "quota") = true ->
  (forall (k : nat) query busy,
      (k < 30)%nat ->
      handleSearch_returns query busy
        (run (repeat Tick k) (step (SearchFailed err) s)) = true)
  /\ cooldown (run (repeat Tick 30) (step (SearchFailed err) s)) = 0
  /\ ticking (run (repeat Tick 30) (step (SearchFailed err) s)) = false
  /\ (forall query,
         handleSearch_returns query false
           (run (repeat Tick 30) (step (SearchFailed err) s))
         = isEmpty (trim query)).
Proof.
  intros Q. destruct (searchFailed_quota err s Q) as [C Tk].
  set (s1 := step (SearchFailed err) s) in *.
  assert (K : forall k : nat, (k < 30)%nat ->
                cooldown (run (repeat Tick k) s1) = 30 - Z.of_nat k
                /\ ticking (run (repeat Tick k) s1) = true).
  { intros k Hk. rewrite countdown by (try assumption; lia).
    cbn [cooldown ticking]. split; [lia | reflexivity]. }
  assert (L : run (repeat Tick 30) s1
              = step Tick (run (repeat Tick 29) s1)).
  { change 30%nat with (29 + 1)%nat.
    rewrite repeat_app, events_app. reflexivity. }
  destruct (K 29%nat ltac:(lia)) as [C29 T29].
  remember (run (repeat Tick 29) s1) as s29 eqn:E29.
  assert (E : cooldown (step Tick s29) = 0
              /\ ticking (step Tick s29) = false).
  { unfold step, handler, tick, cooldownEffect. rewrite T29.
    cbn [cooldown connection]. rewrite C29.
    change (30 - Z.of_nat 29 - 1 >? 0) with false. cbv iota.
    destruct (connection s29); split; reflexivity. }
  split; [|rewrite L; split; [apply E | split; [apply E|]]].
  - intros k query busy Hk. destruct (K k Hk) as [Ck _].
    unfold handleSearch_returns. rewrite Ck.
    assert (G : (30 - Z.of_nat k >? 0) = true) by (apply Z.gtb_lt; lia).
    rewrite G. apply orb_true_r.
  - intros query. unfold handleSearch_returns.
    rewrite (proj1 E). cbn. rewrite !orb_false_r. reflexivity.
Qed.

Lemma search_refused_for_thirty_ticks_witness :
  cooldown (run (repeat Tick 30) (step (SearchFailed error429)
                                       initialState)) = 0.
Proof.
  exact (proj1 (proj2 (search_refused_for_thirty_ticks
                         error429 initialState eq_refl))).
Defined.

(** X19: with no key, or a blank one, a probe ends in the state error,
    with the banner "API Key Missing." of type hard, a cooldown left
    untouched and no request made, whatever the state before. *)
Theorem missing_key_probe_ends_in_error :
  forall (T W : Type) (ping : @Thunk T W) (w : W) (k : jsstring) s,
    forallb isSpace k = true ->
    testKeyAccess (Some k) ping w = testKeyAccess None ping w
    /\ snd (testKeyAccess None ping w) = []
    /\ connection (checkHealth_end (fst (fst (testKeyAccess None ping w)))
                     (checkHealth_begin s)) = Error
    /\ error (checkHealth_end (fst (fst (testKeyAccess None ping w)))
                (checkHealth_begin s))
       = Some {| msg := js "API Key Missing."; info := None;
                 type := Some Hard |}
    /\ cooldown (checkHealth_end (fst (fst (testKeyAccess None ping w)))
                   (checkHealth_begin s)) = cooldown s.
Proof.
  intros T W ping w k s B.
  split; [exact (testKeyAccess_blank k ping w B)|].
  repeat split.
Qed.

Lemma missing_key_probe_ends_in_error_witness :
  connection (checkHealth_end
                (fst (fst (testKeyAccess None (failing 0 error429 tt)
                                         0%nat)))
                (checkHealth_begin initialState)) = Error.
Proof.
  exact (proj1 (proj2 (proj2 (missing_key_probe_ends_in_error
                                unit nat (failing 0 error429 tt) 0%nat
                                (js " ") initialState eq_refl)))).
Defined.

End CooldownFacts.

(** ** The image in the studio *)

Section StudioFacts.
Import Studio.

Lemma step_coherent e s :
  coherent (activeImage s) /\ coherent (captured s) ->
  coherent (activeImage (step e s)) /\ coherent (captured (step e s)).
Proof.
  intros [A C]. destruct s as [a p c er].
  cbn [activeImage captured] in A, C.
  destruct e as [g q| | | |r]; cbn [step].
  - split; [reflexivity | exact C].
  - split; [exact I | exact C].
  - split; [exact I | exact C].
  - unfold handleAIEdit_begin. cbn [activeImage isProcessing].
    destruct a as [img|]; [destruct p|]; cbn [activeImage captured];
      split; assumption.
  - unfold handleAIEdit_end. cbn [captured].
    destruct c as [img|]; [destruct r|];
      cbn [activeImage captured coherent]; auto.
Qed.

(** X20: whatever the order of opening, going back or home, starting and
    ending refinements, the image in the studio has the same text as [url] (what
    is downloaded) and as [base64] (what is shown); and a refinement that
    ends well keeps the prompt of the image it was started on and replaces
    both texts by its result, also when that image is no longer the one in
    the studio. *)
Theorem studio_image_is_coherent :
  (forall es, coherent (activeImage (run es initialState)))
  /\
  (forall s img b,
      captured s = Some img ->
      activeImage (handleAIEdit_end (inl b) s)
      = Some {| url := b; base64 := b; prompt := prompt img |}).
Proof.
  split.
  - intros es.
    assert (H : coherent (activeImage initialState)
                /\ coherent (captured initialState)) by (split; exact I).
    revert H. generalize initialState as s.
    induction es as [|e es IH]; intros s H; [apply H|].
    apply (IH (step e s)), step_coherent, H.
  - intros s img b C. unfold handleAIEdit_end. rewrite C. reflexivity.
Qed.

Lemma studio_image_is_coherent_witness :
  activeImage
    (run [OpenInStudio (js "data:a") (js "fox"); EditStart; Back;
          OpenInStudio (js "data:b") (js "owl"); EditDone (inl (js "data:c"))]
         initialState)
  = Some {| url := js "data:c"; base64 := js "data:c"; prompt := js "fox" |}.
Proof.
  exact (proj2 studio_image_is_coherent
           (run [OpenInStudio (js "data:a") (js "fox"); EditStart; Back;
                 OpenInStudio (js "data:b") (js "owl")] initialState)
           {| url := js "data:a"; base64 := js "data:a";
              prompt := js "fox" |}
           (js "data:c") eq_refl).
Defined.

End StudioFacts.
